(** * Verification of the YARA rule updater and self-healing validator

    Shallow embedding of [yara_/yara_validator.py] and of the parts of
    [yara_/yara_updater.py] that decide how rule files are repaired,
    include directives are resolved, categories are guessed and unchanged
    files are skipped.

    Conventions of the embedding:
    - a Python [str] is a [string]; a character stands for a code point
      below 256;
    - a text file is the list of lines [readlines] returns and [writelines]
      writes back (every line keeps its line terminator);
    - a Python [int] is a [Z]; list subscripts follow Python (a negative
      subscript counts from the end, an out-of-range one raises
      [IndexError]);
    - exceptions are values of [exn]; a computation that can raise returns
      an [outcome]; an unbounded [while True] takes a fuel argument and
      answers [OutOfFuel] when the fuel is spent. *)

From Stdlib Require Import ZArith Ascii String List Lia Bool DecimalString DecimalPos.
From stdpp Require Import base option list strings gmap.

Local Open Scope Z_scope.

(** ** Exceptions and outcomes *)

Inductive exn : Type :=
  | Exception (msg : string)
  | IndexError
  | AttributeError
  | ValueError
  | TypeError
  | RequestsTimeout
  | ConnectionError (msg : string)
  | OSError
  | SystemExit.

Inductive outcome (A : Type) : Type :=
  | Return (a : A)
  | Raise (e : exn)
  | OutOfFuel.

Arguments Return {A} a.
Arguments Raise {A} e.
Arguments OutOfFuel {A}.

#[global] Instance outcome_ret : MRet outcome := fun A a => Return a.
#[global] Instance outcome_bind : MBind outcome := fun A B f m =>
  match m with
  | Return a => f a
  | Raise e => Raise e
  | OutOfFuel => OutOfFuel
  end.

(** ** Python built-ins used by the source *)

Module Py.

Definition NL : string := String (ascii_of_nat 10) "".
Definition DQUOTE : string := String (ascii_of_nat 34) "".
Definition SQUOTE : string := String (ascii_of_nat 39) "".

(** [s.startswith(p)] *)
Definition startswith (s p : string) : bool := String.prefix p s.

(** [sub in s] *)
Fixpoint contains (sub s : string) {struct s} : bool :=
  String.prefix sub s ||
  match s with
  | EmptyString => false
  | String _ s' => contains sub s'
  end.

Fixpoint sdrop (n : nat) (s : string) : string :=
  match n, s with
  | O, _ => s
  | S _, EmptyString => EmptyString
  | S n', String _ s' => sdrop n' s'
  end.

Fixpoint span (p : ascii -> bool) (s : string) : string * string :=
  match s with
  | EmptyString => (EmptyString, EmptyString)
  | String c s' =>
      if p c then let '(a, b) := span p s' in (String c a, b)
      else (EmptyString, s)
  end.

(** [str.isspace] on code points below 256 *)
Definition isspace (c : ascii) : bool :=
  let n := nat_of_ascii c in
  ((9 <=? n) && (n <=? 13) || (28 <=? n) && (n <=? 32)
   || (n =? 133) || (n =? 160))%nat.

Definition lstrip (s : string) : string := snd (span isspace s).
Definition rstrip (s : string) : string := String.rev (lstrip (String.rev s)).
(** [s.strip()] *)
Definition strip (s : string) : string := rstrip (lstrip s).

(** [s.replace(old, new)] for a non-empty [old]: every occurrence, left to
    right, without overlap.  [skip] counts the characters of a matched
    occurrence still to be passed over. *)
Fixpoint replace_go (old new : string) (skip : nat) (s : string) : string :=
  match s with
  | EmptyString => EmptyString
  | String c s' =>
      match skip with
      | S k => replace_go old new k s'
      | O =>
          if String.prefix old s
          then new +:+ replace_go old new (String.length old - 1) s'
          else String c (replace_go old new 0 s')
      end
  end.

Definition replace (s old new : string) : string :=
  match old with
  | EmptyString => s
  | _ => replace_go old new 0 s
  end.

(** [s.split(sep, maxsplit)] for a non-empty [sep]; a negative [maxsplit]
    means no limit.  [cur] holds the current piece, reversed. *)
Fixpoint split_go (sep : string) (maxsplit : Z) (skip : nat) (cur : string)
    (s : string) : list string :=
  match s with
  | EmptyString => [String.rev cur]
  | String c s' =>
      match skip with
      | S k => split_go sep maxsplit k cur s'
      | O =>
          if negb (maxsplit =? 0) && String.prefix sep s
          then String.rev cur ::
               split_go sep (maxsplit - 1) (String.length sep - 1) EmptyString s'
          else split_go sep maxsplit 0 (String c cur) s'
      end
  end.

Definition split (s sep : string) (maxsplit : Z) : list string :=
  split_go sep maxsplit 0 EmptyString s.

(** Subscripts: [l[i]], [l[:i]], [l[i:]]. *)
Definition norm_index {A} (l : list A) (i : Z) : option nat :=
  let n := Z.of_nat (length l) in
  if (0 <=? i) && (i <? n) then Some (Z.to_nat i)
  else if (- n <=? i) && (i <? 0) then Some (Z.to_nat (n + i))
  else None.

Definition getitem {A} (l : list A) (i : Z) : outcome A :=
  match norm_index l i with
  | Some k => match l !! k with Some x => Return x | None => Raise IndexError end
  | None => Raise IndexError
  end.

Definition slice_bound {A} (l : list A) (i : Z) : nat :=
  let n := Z.of_nat (length l) in
  Z.to_nat (Z.min n (Z.max 0 (if i <? 0 then n + i else i))).

Definition slice_to {A} (l : list A) (i : Z) : list A := take (slice_bound l i) l.
Definition slice_from {A} (l : list A) (i : Z) : list A := drop (slice_bound l i) l.

(** A [dict] with string keys keeps its keys in insertion order:
    [d[k] = v] and [d.get(k)]. *)
Fixpoint dict_set {V} (d : list (string * V)) (k : string) (v : V)
    : list (string * V) :=
  match d with
  | [] => [(k, v)]
  | (k', v') :: d' =>
      if String.eqb k' k then (k, v) :: d' else (k', v') :: dict_set d' k v
  end.

Fixpoint dict_get {V} (d : list (string * V)) (k : string) : option V :=
  match d with
  | [] => None
  | (k', v') :: d' => if String.eqb k' k then Some v' else dict_get d' k
  end.

(** [str(n)] for an [int] *)
Definition str_of_int (n : Z) : string := NilZero.string_of_int (Z.to_int n).

(** [int(s)]: surrounding white space, an optional sign, decimal digits
    with single underscores between digits. *)
Definition digit_val (c : ascii) : option Z :=
  let n := nat_of_ascii c in
  if ((48 <=? n) && (n <=? 57))%nat then Some (Z.of_nat (n - 48)) else None.

Fixpoint int_digits (acc : Z) (after_digit : bool) (s : string) : option Z :=
  match s with
  | EmptyString => if after_digit then Some acc else None
  | String c s' =>
      match digit_val c with
      | Some d => int_digits (10 * acc + d) true s'
      | None =>
          if Ascii.eqb c "_" && after_digit then int_digits acc false s'
          else None
      end
  end.

Definition int (s : string) : outcome Z :=
  let body :=
    match strip s with
    | String "+" r => int_digits 0 false r
    | String "-" r => Z.opp <$> int_digits 0 false r
    | t => int_digits 0 false t
    end in
  match body with
  | Some n => Return n
  | None => Raise ValueError
  end.

End Py.

(** ** yara_validator.py *)

Module YaraValidator.
Import Py.

(** [self.rulestart]:
    [re.compile(r'^(?:global )?(?:private )?(?:private )?rule ', re.MULTILINE)].
    Each optional group contributes its literal or nothing; [re.match]
    anchors the pattern at the first character of the line. *)
Definition optional (p : string) : list string := [p; EmptyString].

Definition rulestart : list string :=
  g ← optional "global ";
  p1 ← optional "private ";
  p2 ← optional "private ";
  [g +:+ p1 +:+ p2 +:+ "rule "].

(** [re.match(self.rulestart, line)] is not [None] *)
Definition rulestart_match (line : string) : bool :=
  existsb (fun p => startswith line p) rulestart.

(** [self.rulename]: [re.compile('rule ([^{^:]+)')].  [re.search] takes the
    leftmost position where the pattern matches; group 1 is the longest run
    of characters other than an opening brace, a caret and a colon. *)
Definition rulename_class (c : ascii) : bool :=
  negb (Ascii.eqb c "{" || Ascii.eqb c "^" || Ascii.eqb c ":").

Fixpoint rulename_search (line : string) : option string :=
  let here :=
    if startswith line "rule " then
      match fst (span rulename_class (sdrop 5 line)) with
      | EmptyString => None
      | g => Some g
      end
    else None in
  match here with
  | Some g => Some g
  | None =>
      match line with
      | EmptyString => None
      | String _ line' => rulename_search line'
      end
  end.

(** [re.search(self.rulename, line).group(1).strip()] *)
Definition rulename_of (line : string) : outcome string :=
  match rulename_search line with
  | Some g => Return (strip g)
  | None => Raise AttributeError
  end.

Definition start_not_found (message : string) (eline : Z) : exn :=
  Exception ("Yara Validator failed to find invalid rule start. "
             +:+ "Yara Error: " +:+ message +:+ " Line: " +:+ str_of_int eline).

Definition end_not_found (message : string) (eline : Z) : exn :=
  Exception ("Yara Validator failed to find invalid rule end. "
             +:+ "Yara Error: " +:+ message +:+ " Line: " +:+ str_of_int eline).

(** The second loop of [clean]: from the error line forward to the next
    rule start or the last line; answers the stripped list of lines. *)
Fixpoint second_loop (fuel : nat) (f_lines : list string) (message : string)
    (eline error_line find_start end_idx : Z) : outcome (list string) :=
  match fuel with
  | O => OutOfFuel
  | S fuel' =>
      let find_end := error_line + end_idx in
      if Z.of_nat (length f_lines) <=? find_end
      then Raise (end_not_found message eline)
      else
        line ← getitem f_lines find_end;
        if rulestart_match line || (find_end =? Z.of_nat (length f_lines) - 1)
        then
          if find_end =? Z.of_nat (length f_lines) - 1
          then Return (slice_to f_lines find_start)
          else Return (slice_to f_lines find_start ++ slice_from f_lines find_end)
        else second_loop fuel' f_lines message eline error_line find_start (end_idx + 1)
  end.

(** The first loop of [clean]: from the error line backward to the nearest
    rule start. *)
Fixpoint first_loop (fuel : nat) (f_lines : list string) (message : string)
    (eline error_line start_idx : Z) : outcome (list string * string) :=
  match fuel with
  | O => OutOfFuel
  | S fuel' =>
      let find_start := error_line - start_idx in
      if find_start =? -1
      then Raise (start_not_found message eline)
      else
        line ← getitem f_lines find_start;
        if rulestart_match line
        then
          invalid_rule_name ← rulename_of line;
          f_lines' ← second_loop (2 * length f_lines + 1) f_lines message
                        eline error_line find_start 0;
          Return (f_lines', invalid_rule_name)
        else first_loop fuel' f_lines message eline error_line (start_idx + 1)
  end.

(** The body of [clean] between reading and writing the file. *)
Definition clean_lines (f_lines : list string) (eline : Z) (message : string)
    (invalid_rule_name : string) : outcome (list string * string) :=
  let error_line := eline - 1 in
  if negb (String.eqb invalid_rule_name EmptyString)
  then
    line ← getitem f_lines error_line;
    match norm_index f_lines error_line with
    | Some k =>
        Return (<[k := replace line invalid_rule_name (invalid_rule_name +:+ "_1")]> f_lines,
                invalid_rule_name)
    | None => Raise IndexError
    end
  else first_loop (length f_lines + 2) f_lines message eline error_line 0.

(** [clean(rulefile, eline, message, invalid_rule_name)]: the file is read,
    repaired and written back; it is written only when no exception was
    raised.  The second component is the file after the call. *)
Definition clean (rulefile : list string) (eline : Z) (message : string)
    (invalid_rule_name : string) : outcome string * list string :=
  match clean_lines rulefile eline message invalid_rule_name with
  | Return (f_lines, name) => (Return name, f_lines)
  | Raise e => (Raise e, rulefile)
  | OutOfFuel => (OutOfFuel, rulefile)
  end.

(** [str(e)] for the exceptions of the model *)
Definition str_of_exn (e : exn) : string :=
  match e with
  | Exception msg => msg
  | ConnectionError msg => msg
  | _ => EmptyString
  end.

Section Validate.

(** The command line check [python3 paranoid_check.py rulefile externals]:
    the standard output and standard error it leaves for a rule file,
    after [safe_str]. *)
Variable paranoid_check : list string -> string * string.

Definition print_val : string := "--==Rules_validated++__".

(** [paranoid_rule_check(rulefile)]: [None] when the method returns,
    [Some e] when it raises [e]. *)
Definition paranoid_rule_check (rulefile : list string) : option exn :=
  let '(stdout, stderr) := paranoid_check rulefile in
  if negb (contains print_val stdout)
  then
    if startswith (strip stdout) "yara.SyntaxError"
    then Some (Exception (strip stdout))
    else Some (Exception ("YaraValidator has failed!--+--" +:+ stderr
                          +:+ "--:--" +:+ stdout))
  else None.

(** The error line, the message and the duplicated rule name read from
    the text of a syntax error. *)
Definition parse_error (error : string) : outcome (Z * string * string) :=
  head ← getitem (split error "):" 1) 0;
  number ← getitem (split head "(" (-1)) 1;
  e_line ← int number;
  e_message ← getitem (split error "): " 1) 1;
  invalid_rule_name ←
    (if contains "duplicated identifier" error
     then getitem (split e_message DQUOTE (-1)) 1
     else Return EmptyString);
  Return (e_line, e_message, invalid_rule_name).

(** The [while True] loop of [validate_rules]; [change] is the flag the
    method returns. *)
Fixpoint validate_rules_loop (fuel : nat) (change : bool)
    (rulefile : list string) : outcome bool * list string :=
  match fuel with
  | O => (OutOfFuel, rulefile)
  | S fuel' =>
      match paranoid_rule_check rulefile with
      | None => (Return change, rulefile)
      | Some e =>
          let error := str_of_exn e in
          if startswith error "yara.SyntaxError"
          then
            match parse_error error with
            | Return (e_line, e_message, invalid_rule_name) =>
                match clean rulefile e_line e_message invalid_rule_name with
                | (Return _, rulefile') => validate_rules_loop fuel' true rulefile'
                | (Raise ve, rulefile') => (Raise ve, rulefile')
                | (OutOfFuel, rulefile') => (OutOfFuel, rulefile')
                end
            | Raise pe => (Raise pe, rulefile)
            | OutOfFuel => (OutOfFuel, rulefile)
            end
          else (Raise e, rulefile)
      end
  end.

Definition validate_rules (fuel : nat) (rulefile : list string)
    : outcome bool * list string :=
  validate_rules_loop fuel false rulefile.

End Validate.

End YaraValidator.

(** ** The file system and [os.path] *)

Module Os.
Import Py.

(** What a path names: a text file with its content, or a directory. *)
Inductive node : Type :=
  | File (text : string)
  | Dir.

(** [f.readlines()]: the text cut after every line feed. *)
Fixpoint readlines_go (cur : string) (text : string) : list string :=
  match text with
  | EmptyString =>
      match cur with
      | EmptyString => []
      | _ => [String.rev cur]
      end
  | String c text' =>
      if Ascii.eqb c (ascii_of_nat 10)
      then String.rev (String c cur) :: readlines_go EmptyString text'
      else readlines_go (String c cur) text'
  end.

Definition readlines (text : string) : list string := readlines_go EmptyString text.

(** [f.writelines(lines)] on a file opened with mode ["w"] *)
Definition writelines (lines : list string) : string :=
  foldr String.append EmptyString lines.

(** [sep.join(lines)] *)
Fixpoint join_str (sep : string) (lines : list string) : string :=
  match lines with
  | [] => EmptyString
  | [l] => l
  | l :: ls => l +:+ sep +:+ join_str sep ls
  end.

(** [os.path.exists(p)] *)
Definition exists_ (fs : gmap string node) (p : string) : bool :=
  bool_decide (is_Some (fs !! p)).

(** [open(p, 'r')] followed by [readlines()] *)
Definition open_readlines (fs : gmap string node) (p : string)
    : outcome (list string) :=
  match fs !! p with
  | Some (File text) => Return (readlines text)
  | _ => Raise OSError
  end.

(** The index just after the last slash of [p] (0 when there is none):
    [p.rfind('/') + 1]. *)
Fixpoint after_last_slash (p : string) : nat :=
  match p with
  | EmptyString => O
  | String c p' =>
      if contains "/" p' then S (after_last_slash p')
      else if Ascii.eqb c "/" then 1%nat else O
  end.

(** [os.path.basename(p)] *)
Definition basename (p : string) : string := sdrop (after_last_slash p) p.

Definition all_slashes (s : string) : bool :=
  String.eqb (snd (span (fun c => Ascii.eqb c "/") s)) EmptyString.

Definition rstrip_slashes (s : string) : string :=
  String.rev (snd (span (fun c => Ascii.eqb c "/") (String.rev s))).

(** [os.path.dirname(p)] *)
Definition dirname (p : string) : string :=
  let head := substring 0 (after_last_slash p) p in
  if all_slashes head then head else rstrip_slashes head.

(** [os.path.splitext(p)[0]] for a path without a slash: the name up to
    its last dot, unless only dots come before that dot. *)
Fixpoint last_dot (p : string) : option nat :=
  match p with
  | EmptyString => None
  | String c p' =>
      match last_dot p' with
      | Some j => Some (S j)
      | None => if Ascii.eqb c "." then Some O else None
      end
  end.

Definition splitext_root (p : string) : string :=
  match last_dot p with
  | Some d =>
      if String.eqb (snd (span (fun c => Ascii.eqb c ".") (substring 0 d p))) EmptyString
      then p
      else substring 0 d p
  | None => p
  end.

(** [shutil.rmtree(d)] and [os.makedirs(d)] *)
Definition rmtree (fs : gmap string node) (d : string) : gmap string node :=
  filter (fun kv => negb (String.eqb (fst kv) d || startswith (fst kv) (d +:+ "/")) = true) fs.

Definition makedirs (fs : gmap string node) (d : string) : gmap string node :=
  <[d := Dir]> fs.

(** [os.path.join(a, b)] *)
Definition join (a b : string) : string :=
  if startswith b "/" then b
  else if String.eqb a EmptyString || startswith (String.rev a) "/" then a +:+ b
  else a +:+ "/" +:+ b.

(** [os.path.normpath(p)]: empty and dot components dropped, a dot-dot
    component cancels the component before it. *)
Fixpoint normpath_comps (absolute : bool) (acc comps : list string) : list string :=
  match comps with
  | [] => rev acc
  | c :: comps' =>
      if String.eqb c EmptyString || String.eqb c "." then normpath_comps absolute acc comps'
      else if String.eqb c ".." then
        match acc with
        | [] => normpath_comps absolute (if absolute then [] else [c]) comps'
        | last :: acc' =>
            if String.eqb last ".." then normpath_comps absolute (c :: acc) comps'
            else normpath_comps absolute acc' comps'
        end
      else normpath_comps absolute (c :: acc) comps'
  end.

Definition normpath (p : string) : string :=
  match p with
  | EmptyString => "."
  | _ =>
      let initial_slashes :=
        if startswith p "/" then
          if startswith p "//" && negb (startswith p "///") then 2%nat else 1%nat
        else O in
      let comps := normpath_comps (negb (Nat.eqb initial_slashes 0)) [] (split p "/" (-1)) in
      let body := join_str "/" comps in
      let path :=
        match initial_slashes with
        | O => body
        | 1%nat => "/" +:+ body
        | _ => "//" +:+ body
        end in
      match path with
      | EmptyString => "."
      | _ => path
      end
  end.

End Os.

(** ** yara_updater.py *)

Module YaraUpdater.
Import Py Os.

(** *** [guess_category] *)

Definition cat_map : list (string * list string) :=
  [ ("technique", ["antidebug"; "antivm"; "capabilities"]);
    ("info", ["info"; "deprecated"; "crypto"; "packer"]);
    ("tool", ["webshell"]);
    ("exploit", ["cve"; "exploit"]);
    ("malware", ["malware"; "maldoc"; "implant"]) ].

(** [for item in items: if item in rule_file_name: return cat] *)
Fixpoint guess_items (cat : string) (items : list string) (rule_file_name : string)
    : option string :=
  match items with
  | [] => None
  | item :: items' =>
      if contains item rule_file_name then Some cat
      else guess_items cat items' rule_file_name
  end.

(** [for cat, items in cat_map.items(): ...] *)
Fixpoint guess_cats (cats : list (string * list string)) (rule_file_name : string)
    : option string :=
  match cats with
  | [] => None
  | (cat, items) :: cats' =>
      match guess_items cat items rule_file_name with
      | Some c => Some c
      | None => guess_cats cats' rule_file_name
      end
  end.

Definition guess_category (rule_file_name : string) : option string :=
  guess_cats cat_map rule_file_name.

(** *** Signatures, as Plyara returns them *)

Inductive meta_value : Type :=
  | MStr (s : string)
  | MInt (n : Z)
  | MBool (b : bool).

(** A parsed rule.  [metadata] is [None] when the dictionary has no
    ['metadata'] key; every entry of the list is a one-key dictionary. *)
Record signature : Type := Signature {
  rule_name : string;
  metadata : option (list (string * meta_value));
  imports : list string;
  raw : string
}.

Definition set_metadata (s : signature) (m : list (string * meta_value)) : signature :=
  {| rule_name := rule_name s; metadata := Some m; imports := imports s; raw := raw s |}.

Definition set_imports (s : signature) (i : list string) : signature :=
  {| rule_name := rule_name s; metadata := metadata s; imports := i; raw := raw s |}.

(** The body of the loop over [signatures] under [if guessed_category:]. *)
Definition append_category (guessed_category : string) (s : signature) : signature :=
  let s1 :=
    match metadata s with
    | None => set_metadata s []
    | Some _ => s
    end in
  set_metadata s1 (default [] (metadata s1) ++ [("category", MStr guessed_category)]).

(** [if guessed_category: for s in signatures: ...]; [None] and the empty
    string are false. *)
Definition stamp_category (guessed_category : option string)
    (signatures : list signature) : list signature :=
  match guessed_category with
  | None => signatures
  | Some EmptyString => signatures
  | Some cat => map (append_category cat) signatures
  end.

(** *** [replace_include] *)

Definition is_quote (c : ascii) : bool :=
  Ascii.eqb c (ascii_of_nat 39) || Ascii.eqb c (ascii_of_nat 34).

Fixpoint last_quote (s : string) : option nat :=
  match s with
  | EmptyString => None
  | String c s' =>
      match last_quote s' with
      | Some j => Some (S j)
      | None => if is_quote c then Some O else None
      end
  end.

(** [re.match(r"include [\'\"](.{4,})[\'\"]", include).group(1)]: the dot
    matches every character but a line feed and the group is greedy, so it
    runs to the last quote of the first line, which must leave it four
    characters at least. *)
Definition include_path_of (include : string) : outcome string :=
  if startswith include "include "
  then
    match sdrop 8 include with
    | String q rest =>
        if is_quote q then
          let first_line := fst (span (fun c => negb (Ascii.eqb c (ascii_of_nat 10))) rest) in
          match last_quote first_line with
          | Some j =>
              if (4 <=? j)%nat then Return (substring 0 j first_line)
              else Raise AttributeError
          | None => Raise AttributeError
          end
        else Raise AttributeError
    | EmptyString => Raise AttributeError
    end
  else Raise AttributeError.

(** The state the resolution of includes threads: the set
    [processed_files] and the files opened so far, oldest first. *)
Definition include_state : Type := gset string * list string.

(** [for i, line in enumerate(lines): if line.startswith("include"): ...
    else: temp_lines.append(line)], with the call of [replace_include] for
    the directory at hand as [resolve]. *)
Fixpoint include_loop
    (resolve : string -> include_state -> outcome (list string * include_state))
    (lines temp_lines : list string) (st : include_state)
    : outcome (list string * include_state) :=
  match lines with
  | [] => Return (temp_lines, st)
  | line :: lines' =>
      if startswith line "include"
      then
        '(inlined, st') ← resolve line st;
        include_loop resolve lines' (temp_lines ++ inlined) st'
      else include_loop resolve lines' (temp_lines ++ [line]) st
  end.

Fixpoint replace_include (fuel : nat) (fs : gmap string node)
    (include dirname : string) (st : include_state)
    : outcome (list string * include_state) :=
  match fuel with
  | O => OutOfFuel
  | S fuel' =>
      include_path ← include_path_of include;
      let full_include_path := normpath (join dirname include_path) in
      if negb (exists_ fs full_include_path)
      then Return ([], st)
      else
        let temp_lines := [NL] in
        let '(processed_files, opened) := st in
        if bool_decide (full_include_path ∉ processed_files)
        then
          let processed_files := processed_files ∪ {[full_include_path]} in
          lines ← open_readlines fs full_include_path;
          let new_dirname := Os.dirname full_include_path in
          include_loop (fun line => replace_include fuel' fs line new_dirname)
            lines temp_lines (processed_files, opened ++ [full_include_path])
        else Return (temp_lines, st)
  end.

(** *** [url_download] *)

Record source : Type := Source {
  name : string;
  uri : string;
  headers : option (list (string * string));
  default_classification : option string
}.

Record response : Type := Response {
  status_code : Z;
  ok : bool;
  last_modified : option string;
  content : string
}.

(** The value of [previous_update]: absent, a string or seconds since the
    epoch. *)
Inductive timestamp : Type :=
  | NoUpdate
  | IsoString (s : string)
  | Epoch (t : Z).

Section Download.

(** The remote side and the clock: what [session.head] and [session.get]
    answer or raise, and the conversions of dates. *)
Variable session_head : source -> option (list (string * string)) -> outcome response.
Variable session_get : source -> option (list (string * string)) -> outcome response.
Variable iso_to_epoch : string -> outcome Z.
Variable last_modified_to_epoch : string -> outcome Z.
Variable epoch_to_http_date : Z -> string.

(** The body of the [try] block of [url_download]. *)
Definition url_download_try (fs : gmap string node) (download_directory : string)
    (src : source) (previous_update : timestamp)
    : outcome (option string * gmap string node) :=
  previous_update ←
    match previous_update with
    | IsoString s => t ← iso_to_epoch s; Return (Some t)
    | Epoch t => Return (Some t)
    | NoUpdate => Return None
    end;
  let since := match previous_update with Some t => negb (t =? 0) | None => false end in
  let previous := default 0 previous_update in
  response ← session_head src (headers src);
  unchanged ←
    match last_modified response with
    | Some EmptyString | None => Return false
    | Some lm =>
        t ← last_modified_to_epoch lm;
        Return (since && (t <=? previous))
    end;
  if (unchanged : bool) then Return (None, fs)
  else
    let headers' :=
      if since
      then Some (dict_set (default [] (headers src)) "If-Modified-Since"
                   (epoch_to_http_date previous))
      else headers src in
    response ← session_get src headers';
    if status_code response =? 304 then Return (None, fs)
    else if ok response then
      let file_name := basename (name src +:+ ".yar") in
      let file_path := join download_directory file_name in
      Return (Some file_path, <[file_path := File (content response)]> fs)
    else Return (None, fs).

(** [url_download]: [requests.Timeout] is passed over, every other
    [Exception] is logged and followed by [exit()]. *)
Definition url_download (fs : gmap string node) (download_directory : string)
    (src : source) (previous_update : timestamp)
    : outcome (option string) * gmap string node :=
  let fs0 := makedirs (rmtree fs download_directory) download_directory in
  match url_download_try fs0 download_directory src previous_update with
  | Return (file_path, fs') => (Return file_path, fs')
  | Raise RequestsTimeout => (Return None, fs0)
  | Raise SystemExit => (Raise SystemExit, fs0)
  | Raise _ => (Raise SystemExit, fs0)
  | OutOfFuel => (OutOfFuel, fs0)
  end.

End Download.

(** *** [yara_update] *)

(** The calls that leave the updater: the validation of an aggregated file
    ([_compile_rules]) and the import of a file by the publisher
    ([YaraImporter.import_file]). *)
Inductive call : Type :=
  | Validate (cur_file : string)
  | Import (cur_file source_name classification : string).


(** [l.remove(x)] when [x in l]: the first occurrence goes. *)
Fixpoint remove_first (x : string) (l : list string) : list string :=
  match l with
  | [] => []
  | y :: l' => if String.eqb y x then l' else y :: remove_first x l'
  end.

Section Update.

Variable session_head : source -> option (list (string * string)) -> outcome response.
Variable session_get : source -> option (list (string * string)) -> outcome response.
Variable iso_to_epoch : string -> outcome Z.
Variable last_modified_to_epoch : string -> outcome Z.
Variable epoch_to_http_date : Z -> string.
(** [git_clone_repo]: the files it selects and the file system it leaves. *)
Variable git_clone_repo :
  gmap string node -> string -> source -> timestamp ->
  outcome (list string) * gmap string node.
(** Plyara: [Plyara().parse_string], [utils.detect_imports] and
    [utils.rebuild_yara_rule]. *)
Variable parse_string : string -> outcome (list signature).
Variable detect_imports : signature -> list string.
Variable rebuild_yara_rule : signature -> string.
(** [get_sha256_for_file] on the text of a file. *)
Variable get_sha256 : string -> string.
(** [classification.UNRESTRICTED] *)
Variable UNRESTRICTED : string.
Variable paranoid_check : list string -> string * string.
(** [yara_importer.import_file]: [None] when it returns. *)
Variable import_file : string -> string -> string -> option exn.

(** The body of [for file in files] for one file.  [mode_w] tells whether
    the aggregated file is still to be opened with mode ["w"]. *)
Definition aggregate_file (fs : gmap string node) (file_name : string)
    (file : option string) (mode_w : bool) (st : include_state)
    : outcome (gmap string node * bool * include_state) :=
  match file with
  | None => Raise TypeError
  | Some file =>
      if bool_decide (file ∈ st.1) then Return (fs, mode_w, st)
      else
        let file_dirname := Os.dirname file in
        let st := (st.1 ∪ {[normpath file]}, st.2) in
        f_lines ← open_readlines fs file;
        '(temp_lines, st) ←
          include_loop (fun f_line => replace_include (S (size fs)) fs f_line file_dirname)
            f_lines [] st;
        let guessed_category := guess_category file in
        signatures ← parse_string (join_str NL temp_lines);
        let signatures := stamp_category guessed_category signatures in
        let rebuilt :=
          map (fun s =>
                 let i := detect_imports s in
                 let i := if bool_decide ("cuckoo" ∈ i) then remove_first "cuckoo" i else i in
                 rebuild_yara_rule (set_imports s i)) signatures in
        let written := writelines rebuilt in
        match fs !! file_name with
        | Some Dir => Raise OSError
        | Some (File old) =>
            let text := if mode_w then written else old +:+ written in
            Return (<[file_name := File text]> fs, false, st)
        | None => Return (<[file_name := File written]> fs, false, st)
        end
  end.

Fixpoint aggregate_files (fs : gmap string node) (file_name : string)
    (files : list (option string)) (mode_w : bool) (st : include_state)
    : outcome (gmap string node) :=
  match files with
  | [] => Return fs
  | file :: files' =>
      '(fs', mode_w', st') ← aggregate_file fs file_name file mode_w st;
      aggregate_files fs' file_name files' mode_w' st'
  end.

(** "Check if the file is the same as the last run": the two dictionaries
    after the check of one source.  [get_sha256_for_file] reads the
    file, which fails on a directory. *)
Definition record_hash (fs : gmap string node) (previous_hash : gmap string string)
    (src : source) (file_name : string)
    (files_sha256 files_default_classification : list (string * string))
    : outcome (list (string * string) * list (string * string)) :=
  match fs !! file_name with
  | Some (File text) =>
      let cache_name := basename file_name in
      let sha256 := get_sha256 text in
      if bool_decide (Some sha256 ≠ previous_hash !! cache_name)
      then Return (dict_set files_sha256 cache_name sha256,
                   dict_set files_default_classification cache_name
                     (default UNRESTRICTED (default_classification src)))
      else Return (files_sha256, files_default_classification)
  | Some Dir => Raise OSError
  | None => Return (files_sha256, files_default_classification)
  end.

(** "1. Download signatures": the list [files] of one source. *)
Definition download_files (fs : gmap string node) (download_directory : string)
    (src : source) (previous_update : timestamp)
    : outcome (list (option string) * gmap string node) :=
  if startswith (String.rev (uri src)) (String.rev ".git")
  then
    let '(r, fs') := git_clone_repo fs download_directory src previous_update in
    files ← r; Return (map Some files, fs')
  else
    let '(r, fs') :=
      url_download session_head session_get iso_to_epoch last_modified_to_epoch
        epoch_to_http_date fs download_directory src previous_update in
    file ← r; Return ([file], fs').

(** The body of the loop over [sources.items()]. *)
Definition update_source (fs : gmap string node) (download_directory working_dir : string)
    (previous_update : timestamp) (previous_hash : gmap string string)
    (source_name : string) (src : source)
    (files_sha256 files_default_classification : list (string * string))
    : outcome (gmap string node * list (string * string) * list (string * string)) :=
  let fs := makedirs fs (join working_dir source_name) in
  '(files, fs) ← download_files fs download_directory src previous_update;
  let file_name := join working_dir (source_name +:+ ".yar") in
  fs ← aggregate_files fs file_name files true (∅, []);
'(files_sha256, files_default_classification) ←
    record_hash fs previous_hash src file_name files_sha256
      files_default_classification;
  Return (fs, files_sha256, files_default_classification).

(** The loop over [sources.items()]. *)
Fixpoint update_sources (fs : gmap string node) (download_directory working_dir : string)
    (previous_update : timestamp) (previous_hash : gmap string string)
    (sources : list (string * source))
    (files_sha256 files_default_classification : list (string * string))
    : outcome (gmap string node * list (string * string) * list (string * string)) :=
  match sources with
  | [] => Return (fs, files_sha256, files_default_classification)
  | (source_name, src) :: sources' =>
      '(fs, files_sha256, files_default_classification) ←
        update_source fs download_directory working_dir previous_update previous_hash
          source_name src files_sha256 files_default_classification;
      update_sources fs download_directory working_dir previous_update previous_hash
        sources' files_sha256 files_default_classification
  end.

(** [_compile_rules(cur_file, externals, cur_logger)] *)
Definition _compile_rules (fuel : nat) (fs : gmap string node) (cur_file : string)
    : outcome bool * gmap string node :=
  match fs !! cur_file with
  | Some (File text) =>
      let '(r, lines) :=
        YaraValidator.validate_rules paranoid_check fuel (readlines text) in
      (r ≫= (fun _ => Return true), <[cur_file := File (writelines lines)]> fs)
  | _ => (Raise OSError, fs)
  end.

(** "Validating and importing the different signatures": the loop over
    the keys of [files_sha256]; [calls] collects the calls made, oldest
    first. *)
Fixpoint validate_and_import (fuel : nat) (fs : gmap string node) (working_dir : string)
    (files_default_classification : list (string * string))
    (base_files : list string) (calls : list call)
    : outcome unit * list call :=
  match base_files with
  | [] => (Return tt, calls)
  | base_file :: base_files' =>
      let cur_file := join working_dir base_file in
      let source_name := splitext_root (basename cur_file) in
      let default_classification :=
        default UNRESTRICTED (dict_get files_default_classification base_file) in
      let calls := calls ++ [Validate cur_file] in
      match _compile_rules fuel fs cur_file with
      | (Return _, fs') =>
          let calls := calls ++ [Import cur_file source_name default_classification] in
          match import_file cur_file source_name default_classification with
          | None =>
              validate_and_import fuel fs' working_dir files_default_classification
                base_files' calls
          | Some e => (Raise e, calls)
          end
      | (Raise e, _) => (Raise e, calls)
      | (OutOfFuel, _) => (OutOfFuel, calls)
      end
  end.

(** [sources = {source['name']: source for source in update_config['sources']}] *)
Definition sources_dict (sources : list source) : list (string * source) :=
  foldl (fun d src => dict_set d (name src) src) [] sources.

(** [yara_update] from the parsed configuration up to the end of the
    import loop.  Next to the outcome stand the dictionary [files_sha256]
    as the import loop finds it (empty when the loop is not reached) and
    the calls made. *)
Definition yara_update (fuel : nat) (fs : gmap string node)
    (download_directory working_dir : string)
    (sources : list source) (previous_update : timestamp)
    (previous_hash : gmap string string)
    : outcome unit * (list (string * string) * list call) :=
  match sources with
  | [] => (Raise SystemExit, ([], []))
  | _ =>
      let fs := makedirs (rmtree fs working_dir) working_dir in
      match update_sources fs download_directory working_dir previous_update
              previous_hash (sources_dict sources) [] [] with
      | Return (fs, files_sha256, files_default_classification) =>
          match files_sha256 with
          | [] => (Raise SystemExit, ([], []))
          | _ =>
              let '(r, calls) :=
                validate_and_import fuel fs working_dir files_default_classification
                  (map fst files_sha256) [] in
              (r, (files_sha256, calls))
          end
      | Raise e => (Raise e, ([], []))
      | OutOfFuel => (OutOfFuel, ([], []))
      end
  end.

End Update.

End YaraUpdater.

(** ** Definitions that follow the words of the specification *)

Module Spec.
Import Py Os YaraValidator YaraUpdater.

(** The rename of the specification: only the first occurrence of [old] in
    the line is replaced ([s.replace(old, new, 1)]). *)
Fixpoint replace_first (old new : string) (s : string) : string :=
  match s with
  | EmptyString => EmptyString
  | String c s' =>
      if String.prefix old s then new +:+ sdrop (String.length old) s
      else String c (replace_first old new s')
  end.

(** The category table as one ordered list of keywords, every keyword with
    its category. *)
Definition keyword_table : list (string * string) :=
  '(cat, items) ← cat_map; item ← items; [(item, cat)].

(** The category of the first keyword of the table that is a substring of
    the file name. *)
Definition first_keyword_category (rule_file_name : string) : option string :=
  snd <$> List.find (fun kc => contains (fst kc) rule_file_name) keyword_table.

End Spec.

(** ** Predicates of the statements *)

(** A check all of whose syntax errors are repaired by a removal that
    shrinks the file: the error is not a duplicated identifier, and its line
    is the last line of the file or a line on which no rule starts. *)
Definition shrinking_reports (paranoid_check : list string -> string * string) : Prop :=
  forall (rulefile : list string) (e : exn) (e_line : Z) (e_message name : string),
    YaraValidator.paranoid_rule_check paranoid_check rulefile = Some e ->
    Py.startswith (YaraValidator.str_of_exn e) "yara.SyntaxError" = true ->
    YaraValidator.parse_error (YaraValidator.str_of_exn e) = Return (e_line, e_message, name) ->
    name = EmptyString /\ 1 <= e_line /\
    (e_line = Z.of_nat (length rulefile)
     \/ forall line, rulefile !! Z.to_nat (e_line - 1) = Some line ->
                     YaraValidator.rulestart_match line = false).


(** What one resolution adds to the state: the files it opens are new to
    [processed_files], distinct, present in the file system and added to the
    set. *)
Definition extends (fs : gmap string Os.node) (st st' : YaraUpdater.include_state) : Prop :=
  exists new : list string,
    st'.2 = st.2 ++ new /\ NoDup new /\
    (forall p, p ∈ new -> p ∉ st.1 /\ p ∈ dom fs) /\
    st'.1 = st.1 ∪ list_to_set new.

Definition resolved (fs : gmap string Os.node) (st : YaraUpdater.include_state)
    (r : outcome (list string * YaraUpdater.include_state)) : Prop :=
  match r with
  | Return (_, st') => extends fs st st'
  | Raise _ => True
  | OutOfFuel => False
  end.

(** The files still to be processed. *)
Definition pending (fs : gmap string Os.node) (st : YaraUpdater.include_state) : nat :=
  size (dom fs ∖ st.1).

(** ** Rule files and checks used as examples *)

Module Scenario.
Import Py Os YaraValidator YaraUpdater.

Definition rule_A : string := "rule A { condition: true }".
Definition rule_B_bad : string := "rule B {bad syntax".
Definition rule_C : string := "rule C { condition: true }".

(** The three-line file of the concrete scenario. *)
Definition three_rules : list string := [rule_A +:+ NL; rule_B_bad +:+ NL; rule_C].


Definition syntax_message : string := "syntax error, unexpected identifier".

(** A check that reports the syntax error of rule B on the line where the
    rule is declared, as long as that line is in the file. *)
Definition check_rule_B (rulefile : list string) : string * string :=
  if bool_decide (rule_B_bad +:+ NL ∈ rulefile)
  then ("yara.SyntaxError: /tmp/rules.yar(2): " +:+ syntax_message, EmptyString)
  else (print_val, EmptyString).

(** A check whose only complaint is about the last line of a two-line
    file. *)
Definition check_last_line (rulefile : list string) : string * string :=
  match rulefile with
  | [_; _] => ("yara.SyntaxError: /tmp/rules.yar(2): " +:+ syntax_message, EmptyString)
  | _ => (print_val, EmptyString)
  end.


(** A file that begins with text outside every rule. *)
Definition headed_file : list string :=
  ["this is not a rule" +:+ NL; "rule A {" +:+ NL; " condition: true }" +:+ NL].

(** Two rules named [pe]; the second one also carries the tag [pe_file]. *)
Definition duplicated_pe : list string :=
  ["rule pe { condition: true }" +:+ NL; "rule pe : pe_file { condition: false }" +:+ NL].

(** An HTTP source and a remote side that refuses the connection or lets
    the request time out. *)
Definition http_source : source :=
  {| name := "community"; uri := "https://rules.example.org/community.yar";
     headers := None; default_classification := None |}.

Definition refuse : source -> option (list (string * string)) -> outcome response :=
  fun _ _ => Raise (ConnectionError "Connection refused").

Definition time_out : source -> option (list (string * string)) -> outcome response :=
  fun _ _ => Raise RequestsTimeout.

Definition no_date : string -> outcome Z := fun _ => Raise ValueError.
Definition no_http_date : Z -> string := fun _ => EmptyString.



Definition src_signature : signature :=
  {| rule_name := "A"; metadata := None; imports := []; raw := rule_A +:+ NL |}.


(** Two rule files that include each other; the first one also includes
    itself. *)
Definition include_line (path : string) : string :=
  "include " +:+ DQUOTE +:+ path +:+ DQUOTE +:+ NL.

Definition cyclic_fs : gmap string node :=
  <["/rules/a.yar" := File (include_line "a.yar" +:+ include_line "b.yar"
                            +:+ rule_A +:+ NL)]>
    (<["/rules/b.yar" := File (include_line "a.yar" +:+ rule_C +:+ NL)]> ∅).

End Scenario.

(** ** Further predicates of the statements *)


(** Every character of the string satisfies [p]. *)
Fixpoint all_chars (p : ascii -> bool) (s : string) : bool :=
  match s with
  | EmptyString => true
  | String c s' => p c && all_chars p s'
  end.





Definition not_newline (c : ascii) : bool := negb (Ascii.eqb c (ascii_of_nat 10)).

Definition plain_char (c : ascii) : bool :=
  negb (YaraUpdater.is_quote c) && not_newline c.

(** The line does not begin with the word [include]. *)
Definition not_include (line : string) : Prop := Py.startswith line "include" = false.

(** ** A remote side that answers *)

Module Remote.
Import Py Os YaraUpdater.

Definition answer : response :=
  {| status_code := 200; ok := true;
     last_modified := Some "Wed, 21 Oct 2015 07:28:00 GMT";
     content := Scenario.rule_A +:+ NL |}.

Definition not_found : response :=
  {| status_code := 404; ok := false; last_modified := None; content := "Not Found" |}.

Definition answers (r : response)
    : source -> option (list (string * string)) -> outcome response :=
  fun _ _ => Return r.

(** The date of [answer] in seconds since the epoch. *)
Definition date_of_answer : string -> outcome Z := fun _ => Return 1445412480.


End Remote.




(** A check that reports a syntax error on line 7, whatever the length of
    the file: the line number the compiler gives for an error inside an
    included file counts the lines of that file. *)
Definition check_line_seven (rulefile : list string) : string * string :=
  ("yara.SyntaxError: /tmp/included.yar(7): " +:+ Scenario.syntax_message, EmptyString).

(** A download directory with the file of the source [src], and the file
    system once this file is aggregated. *)
Definition downloaded_fs : gmap string Os.node :=
  <["/tmp/yara_updates/src.yar" := Os.File (Scenario.rule_A +:+ Py.NL)]> ∅.

Definition aggregated_fs : gmap string Os.node :=
  <["/tmp/updater_working_dir/src.yar" := Os.File (Scenario.rule_A +:+ Py.NL)]>
    downloaded_fs.

(** The ways in which [clean] ends: it returns, or it raises [IndexError],
    [AttributeError] or the exception for a rule start that was not found. *)
Definition clean_outcome {A} (message : string) (eline : Z) (r : outcome A) : Prop :=
  (exists a, r = Return a)
  \/ r = Raise IndexError
  \/ r = Raise AttributeError
  \/ r = Raise (YaraValidator.start_not_found message eline).

(** * Properties *)

Import Py Os YaraValidator YaraUpdater.

(** ** Subscripts *)

Lemma norm_index_in_range {A} (l : list A) (i : Z) :
  0 <= i < Z.of_nat (length l) -> norm_index l i = Some (Z.to_nat i).
Proof.
  intros H. unfold norm_index.
  destruct (0 <=? i) eqn:E1; [|lia].
  destruct (i <? Z.of_nat (length l)) eqn:E2; [reflexivity|lia].
Qed.

Lemma norm_index_above {A} (l : list A) (i : Z) :
  Z.of_nat (length l) <= i -> norm_index l i = None.
Proof.
  intros H. unfold norm_index.
  destruct (0 <=? i) eqn:E1; destruct (i <? Z.of_nat (length l)) eqn:E2;
    destruct (- Z.of_nat (length l) <=? i) eqn:E3; destruct (i <? 0) eqn:E4;
    simpl; try reflexivity; lia.
Qed.

Lemma norm_index_lt {A} (l : list A) (i : Z) (k : nat) :
  norm_index l i = Some k -> (k < length l)%nat.
Proof.
  unfold norm_index.
  destruct (0 <=? i) eqn:E1; destruct (i <? Z.of_nat (length l)) eqn:E2;
    destruct (- Z.of_nat (length l) <=? i) eqn:E3; destruct (i <? 0) eqn:E4;
    simpl; intros [= <-]; lia.
Qed.

Lemma getitem_at {A} (l : list A) (i : Z) (x : A) :
  0 <= i -> l !! Z.to_nat i = Some x -> getitem l i = Return x.
Proof.
  intros Hi Hx. unfold getitem.
  rewrite norm_index_in_range, Hx; [reflexivity|].
  apply lookup_lt_Some in Hx. lia.
Qed.

Lemma getitem_above {A} (l : list A) (i : Z) :
  Z.of_nat (length l) <= i -> getitem l i = Raise IndexError.
Proof. intros H. unfold getitem. now rewrite norm_index_above. Qed.

Lemma getitem_cases {A} (l : list A) (i : Z) :
  (exists k x, norm_index l i = Some k /\ l !! k = Some x /\ getitem l i = Return x)
  \/ (norm_index l i = None /\ getitem l i = Raise IndexError).
Proof.
  unfold getitem. destruct (norm_index l i) as [k|] eqn:E; [|now right].
  left. destruct (lookup_lt_is_Some_2 l k (norm_index_lt _ _ _ E)) as [x Hx].
  exists k, x. now rewrite Hx.
Qed.

Lemma slice_to_nat {A} (l : list A) (k : nat) :
  (k <= length l)%nat -> slice_to l (Z.of_nat k) = take k l.
Proof.
  intros H. unfold slice_to, slice_bound.
  destruct (Z.of_nat k <? 0) eqn:E; [lia|]. f_equal. lia.
Qed.

Lemma slice_from_nat {A} (l : list A) (k : nat) :
  (k <= length l)%nat -> slice_from l (Z.of_nat k) = drop k l.
Proof.
  intros H. unfold slice_from, slice_bound.
  destruct (Z.of_nat k <? 0) eqn:E; [lia|]. f_equal. lia.
Qed.

(** ** The two loops of [clean] *)

Ltac bind_step := cbn [mbind outcome_bind mret outcome_ret].

(** The backward scan finds no rule start: every line from index [j] down to
    index 0 fails the pattern. *)
Lemma first_loop_no_start (f_lines : list string) (message : string) (eline error_line : Z) :
  forall (n fuel : nat) (start_idx : Z),
    Z.of_nat n = error_line - start_idx + 1 ->
    error_line - start_idx < Z.of_nat (length f_lines) ->
    (forall (i : nat) line, (i < n)%nat -> f_lines !! i = Some line ->
                            rulestart_match line = false) ->
    (n < fuel)%nat ->
    first_loop fuel f_lines message eline error_line start_idx
    = Raise (start_not_found message eline).
Proof.
  induction n as [|n IH]; intros fuel start_idx Hn Hlen Hno Hfuel;
    (destruct fuel as [|fuel]; [lia|]); cbn [first_loop].
  - replace (error_line - start_idx) with (-1) by lia. reflexivity.
  - destruct (error_line - start_idx =? -1) eqn:E; [lia|].
    destruct (lookup_lt_is_Some_2 f_lines n ltac:(lia)) as [line Hline].
    rewrite (getitem_at f_lines _ line); [|lia|].
    2:{ replace (Z.to_nat (error_line - start_idx)) with n by lia. exact Hline. }
    bind_step. rewrite (Hno n line) by (try lia; assumption).
    apply IH; try lia. intros i l Hi. apply Hno. lia.
Qed.

(** The backward scan stops at [s], the nearest rule start at or before the
    line it begins with. *)
Lemma first_loop_found (f_lines : list string) (message : string) (eline error_line : Z)
    (s : nat) (start_line : string) :
  f_lines !! s = Some start_line ->
  rulestart_match start_line = true ->
  forall (n fuel : nat) (start_idx : Z),
    Z.of_nat (s + n) = error_line - start_idx ->
    (forall (i : nat) line, (s < i <= s + n)%nat -> f_lines !! i = Some line ->
                            rulestart_match line = false) ->
    (s + n < length f_lines)%nat ->
    (n < fuel)%nat ->
    first_loop fuel f_lines message eline error_line start_idx
    = (invalid_rule_name ← rulename_of start_line;
       f_lines' ← second_loop (2 * length f_lines + 1) f_lines message eline
                    error_line (Z.of_nat s) 0;
       Return (f_lines', invalid_rule_name)).
Proof.
  intros Hs Hm.
  induction n as [|n IH]; intros fuel start_idx Hn Hno Hlen Hfuel;
    (destruct fuel as [|fuel]; [lia|]); cbn [first_loop].
  - destruct (error_line - start_idx =? -1) eqn:E; [lia|].
    rewrite (getitem_at f_lines _ start_line); [|lia|].
    2:{ replace (Z.to_nat (error_line - start_idx)) with s by lia. exact Hs. }
    bind_step. rewrite Hm. replace (error_line - start_idx) with (Z.of_nat s) by lia.
    reflexivity.
  - destruct (error_line - start_idx =? -1) eqn:E; [lia|].
    destruct (lookup_lt_is_Some_2 f_lines (s + S n) ltac:(lia)) as [line Hline].
    rewrite (getitem_at f_lines _ line); [|lia|].
    2:{ replace (Z.to_nat (error_line - start_idx)) with (s + S n)%nat by lia. exact Hline. }
    bind_step. rewrite (Hno (s + S n)%nat line) by (try lia; assumption).
    apply IH; try lia. intros i l Hi. apply Hno. lia.
Qed.

(** The forward scan stops at [e], the first index from where it begins that
    is a rule start or the last line. *)
Lemma second_loop_found (f_lines : list string) (message : string)
    (eline error_line find_start : Z) (e : nat) (end_line : string) :
  f_lines !! e = Some end_line ->
  rulestart_match end_line = true \/ S e = length f_lines ->
  forall (n fuel : nat) (end_idx : Z),
    Z.of_nat e = error_line + end_idx + Z.of_nat n ->
    (forall (i : nat) line, (e - n <= i < e)%nat -> f_lines !! i = Some line ->
                            rulestart_match line = false) ->
    (n <= e)%nat ->
    (n < fuel)%nat ->
    second_loop fuel f_lines message eline error_line find_start end_idx
    = Return (if bool_decide (S e = length f_lines)
              then slice_to f_lines find_start
              else slice_to f_lines find_start ++ drop e f_lines).
Proof.
  intros He Hend. pose proof (lookup_lt_Some _ _ _ He) as Hlt.
  induction n as [|n IH]; intros fuel end_idx Hn Hno Hle Hfuel;
    (destruct fuel as [|fuel]; [lia|]); cbn [second_loop].
  - destruct (Z.of_nat (length f_lines) <=? error_line + end_idx) eqn:E; [lia|].
    rewrite (getitem_at f_lines _ end_line); [|lia|].
    2:{ replace (Z.to_nat (error_line + end_idx)) with e by lia. exact He. }
    bind_step. replace (error_line + end_idx) with (Z.of_nat e) by lia.
    case_bool_decide as Hd.
    + replace (Z.of_nat e =? Z.of_nat (length f_lines) - 1) with true by lia.
      now rewrite orb_true_r.
    + replace (Z.of_nat e =? Z.of_nat (length f_lines) - 1) with false by lia.
      destruct Hend as [->|]; [|lia]. cbn. now rewrite slice_from_nat by lia.
  - destruct (Z.of_nat (length f_lines) <=? error_line + end_idx) eqn:E; [lia|].
    destruct (lookup_lt_is_Some_2 f_lines (e - S n) ltac:(lia)) as [line Hline].
    rewrite (getitem_at f_lines _ line); [|lia|].
    2:{ replace (Z.to_nat (error_line + end_idx)) with (e - S n)%nat by lia. exact Hline. }
    bind_step. rewrite (Hno (e - S n)%nat line) by (try lia; assumption).
    replace (error_line + end_idx =? Z.of_nat (length f_lines) - 1) with false by lia.
    cbn. apply IH; try lia. intros i l Hi. apply Hno. lia.
Qed.

(** The nearest rule start at or before index [j], if there is one. *)
Lemma nearest_start (f_lines : list string) (j : nat) :
  (forall (i : nat) line, (i <= j)%nat -> f_lines !! i = Some line ->
                          rulestart_match line = false)
  \/ (exists (s : nat) line,
        (s <= j)%nat /\ f_lines !! s = Some line /\ rulestart_match line = true /\
        forall (i : nat) l, (s < i <= j)%nat -> f_lines !! i = Some l ->
                            rulestart_match l = false).
Proof.
  induction j as [|j IH].
  - destruct (f_lines !! O) as [line|] eqn:E.
    + destruct (rulestart_match line) eqn:M.
      * right. exists O, line. repeat split; auto. intros; lia.
      * left. intros i l Hi Hl. assert (i = O) by lia. congruence.
    + left. intros i l Hi Hl. assert (i = O) by lia. congruence.
  - destruct (f_lines !! S j) as [line|] eqn:E.
    + destruct (rulestart_match line) eqn:M.
      * right. exists (S j), line. repeat split; auto. intros; lia.
      * destruct IH as [IH|(s & l & Hs & Hl & Hm & Hno)].
        -- left. intros i l Hi Hl. destruct (decide (i = S j)) as [->|]; [congruence|].
           apply (IH i); [lia|assumption].
        -- right. exists s, l. repeat split; auto.
           intros i l' Hi Hl'. destruct (decide (i = S j)) as [->|]; [congruence|].
           apply (Hno i); [lia|assumption].
    + destruct IH as [IH|(s & l & Hs & Hl & Hm & Hno)].
      * left. intros i l Hi Hl. destruct (decide (i = S j)) as [->|]; [congruence|].
        apply (IH i); [lia|assumption].
      * right. exists s, l. repeat split; auto.
        intros i l' Hi Hl'. destruct (decide (i = S j)) as [->|]; [congruence|].
        apply (Hno i); [lia|assumption].
Qed.

(** The first index from [j] on that is a rule start or the last line. *)
Lemma first_end (f_lines : list string) :
  forall (d j : nat),
    (j + d = length f_lines)%nat -> (0 < d)%nat ->
    exists (e : nat) line,
      (j <= e)%nat /\ f_lines !! e = Some line /\
      (rulestart_match line = true \/ S e = length f_lines) /\
      forall (i : nat) l, (j <= i < e)%nat -> f_lines !! i = Some l ->
                          rulestart_match l = false.
Proof.
  induction d as [|d IH]; intros j Hj Hd; [lia|].
  destruct (lookup_lt_is_Some_2 f_lines j ltac:(lia)) as [line Hline].
  destruct (rulestart_match line) eqn:M.
  - exists j, line. repeat split; auto. intros; lia.
  - destruct d as [|d].
    + exists j, line. repeat split; auto; [right; lia|intros; lia].
    + destruct (IH (S j) ltac:(lia) ltac:(lia)) as (e & l & He & Hl & Hend & Hno).
      exists e, l. repeat split; auto; [lia|].
      intros i l' Hi Hl'. destruct (decide (i = j)) as [->|]; [congruence|].
      apply (Hno i); [lia|assumption].
Qed.

(** What the removal path of [clean] computes for an error line inside the
    file whose enclosing rule starts at [s] and ends before [e]. *)
Lemma clean_lines_span (f_lines : list string) (eline : Z) (message : string)
    (s e : nat) (start_line end_line : string) :
  1 <= eline ->
  (s <= Z.to_nat (eline - 1) <= e)%nat ->
  f_lines !! s = Some start_line ->
  rulestart_match start_line = true ->
  (forall (i : nat) line, (s < i <= Z.to_nat (eline - 1))%nat ->
     f_lines !! i = Some line -> rulestart_match line = false) ->
  f_lines !! e = Some end_line ->
  rulestart_match end_line = true \/ S e = length f_lines ->
  (forall (i : nat) line, (Z.to_nat (eline - 1) <= i < e)%nat ->
     f_lines !! i = Some line -> rulestart_match line = false) ->
  clean_lines f_lines eline message EmptyString
  = (invalid_rule_name ← rulename_of start_line;
     Return (take s f_lines ++
             drop (if bool_decide (S e = length f_lines) then length f_lines else e) f_lines,
             invalid_rule_name)).
Proof.
  intros Hpos Hse Hs Hsm Hback He Hem Hfwd.
  pose proof (lookup_lt_Some _ _ _ He) as Hlt.
  unfold clean_lines. cbn [String.eqb negb].
  rewrite (first_loop_found f_lines message eline (eline - 1) s start_line Hs Hsm
             (Z.to_nat (eline - 1) - s)); try lia.
  2:{ intros i line Hi. apply Hback. lia. }
  destruct (rulename_of start_line) as [name| |]; bind_step; try reflexivity.
  rewrite (second_loop_found f_lines message eline (eline - 1) (Z.of_nat s) e end_line He Hem
             (e - Z.to_nat (eline - 1))); try lia.
  2:{ intros i line Hi. apply Hfwd. lia. }
  bind_step. rewrite slice_to_nat by lia.
  case_bool_decide; [|reflexivity].
  now rewrite drop_all, app_nil_r.
Qed.

(** Without a rule start at or before the error line the removal path
    raises. *)
Lemma clean_lines_no_start (f_lines : list string) (eline : Z) (message : string) :
  1 <= eline ->
  (forall (i : nat) line, (Z.of_nat i < eline) -> f_lines !! i = Some line ->
                          rulestart_match line = false) ->
  clean_lines f_lines eline message EmptyString
  = Raise (if eline <=? Z.of_nat (length f_lines)
           then start_not_found message eline else IndexError).
Proof.
  intros Hpos Hno. unfold clean_lines. cbn [String.eqb negb].
  destruct (eline <=? Z.of_nat (length f_lines)) eqn:E.
  - apply (first_loop_no_start f_lines message eline (eline - 1) (Z.to_nat eline)); try lia.
    intros i line Hi. apply Hno. lia.
  - replace (length f_lines + 2)%nat with (S (S (length f_lines))) by lia.
    cbn [first_loop]. destruct (eline - 1 - 0 =? -1) eqn:E0; [lia|].
    rewrite (getitem_above f_lines (eline - 1 - 0)) by lia. reflexivity.
Qed.

(** The removal path at an error line inside the file: it raises, or it
    deletes a span of lines that contains no line after index [e]. *)
Lemma clean_lines_removal_cases (f_lines : list string) (eline : Z) (message : string) :
  1 <= eline <= Z.of_nat (length f_lines) ->
  (exists ex, clean_lines f_lines eline message EmptyString = Raise ex)
  \/ (exists (s e : nat) (name : string),
        (s <= Z.to_nat (eline - 1) <= e)%nat /\ (e < length f_lines)%nat /\
        (s = Z.to_nat (eline - 1) ->
           exists line, f_lines !! s = Some line /\ rulestart_match line = true) /\
        (s = e -> e = Z.to_nat (eline - 1)) /\
        clean_lines f_lines eline message EmptyString
        = Return (take s f_lines ++
                  drop (if bool_decide (S e = length f_lines) then length f_lines else e)
                    f_lines, name)).
Proof.
  intros Hr.
  destruct (nearest_start f_lines (Z.to_nat (eline - 1)))
    as [Hno|(s & sl & Hs & Hsl & Hsm & Hback)].
  - left. eexists. apply clean_lines_no_start; [lia|].
    intros i line Hi. apply Hno. lia.
  - destruct (first_end f_lines (length f_lines - Z.to_nat (eline - 1)) (Z.to_nat (eline - 1))
                ltac:(lia) ltac:(lia)) as (e & el & He & Hel & Hem & Hfwd).
    pose proof (clean_lines_span f_lines eline message s e sl el
                  ltac:(lia) ltac:(lia) Hsl Hsm Hback Hel Hem Hfwd) as Hc.
    destruct (rulename_of sl) as [name| |] eqn:Hn.
    + right. exists s, e, name. repeat split; try lia.
      * now apply lookup_lt_Some in Hel.
      * intros ->. eauto.
      * exact Hc.
    + left. eexists. exact Hc.
    + unfold rulename_of in Hn. destruct (rulename_search sl); discriminate.
Qed.

(** ** Repairs by removal *)

Lemma clean_lines_above (f_lines : list string) (eline : Z) (message : string) :
  Z.of_nat (length f_lines) < eline ->
  clean_lines f_lines eline message EmptyString = Raise IndexError.
Proof.
  intros H. unfold clean_lines. cbn [String.eqb negb].
  replace (length f_lines + 2)%nat with (S (length f_lines + 1)) by lia.
  cbn [first_loop]. destruct (eline - 1 - 0 =? -1) eqn:E0; [lia|].
  rewrite (getitem_above f_lines (eline - 1 - 0)) by lia. reflexivity.
Qed.




Lemma check_rule_B_loops (fuel : nat) :
  forall change,
    validate_rules_loop Scenario.check_rule_B fuel change Scenario.three_rules
    = (OutOfFuel, Scenario.three_rules).
Proof.
  induction fuel as [|fuel IH]; intros change; [reflexivity|].
  cbn [validate_rules_loop].
  change (paranoid_rule_check Scenario.check_rule_B Scenario.three_rules)
    with (Some (Exception ("yara.SyntaxError: /tmp/rules.yar(2): "
                           +:+ Scenario.syntax_message))).
  cbv iota beta.
  change (str_of_exn (Exception ("yara.SyntaxError: /tmp/rules.yar(2): "
                                 +:+ Scenario.syntax_message)))
    with ("yara.SyntaxError: /tmp/rules.yar(2): " +:+ Scenario.syntax_message).
  change (startswith ("yara.SyntaxError: /tmp/rules.yar(2): " +:+ Scenario.syntax_message)
            "yara.SyntaxError") with true.
  cbv iota.
  change (parse_error ("yara.SyntaxError: /tmp/rules.yar(2): " +:+ Scenario.syntax_message))
    with (Return (A:=Z * string * string) (2, Scenario.syntax_message, EmptyString)).
  cbv iota beta.
  change (clean Scenario.three_rules 2 Scenario.syntax_message EmptyString)
    with (Return "B", Scenario.three_rules).
  cbv iota beta. apply IH.
Qed.


(** C4: when no line at or before the error line matches the rule-start
    pattern, the removal path of [clean] raises and the file is left as it
    was: nothing is removed and nothing is written. *)
Theorem clean_without_rule_start_raises (rulefile : list string) (eline : Z)
    (message : string) :
  1 <= eline ->
  (forall (i : nat) line, Z.of_nat i < eline -> rulefile !! i = Some line ->
                          rulestart_match line = false) ->
  clean rulefile eline message EmptyString
  = (Raise (if eline <=? Z.of_nat (length rulefile)
            then start_not_found message eline else IndexError),
     rulefile).
Proof.
  intros Hpos Hno. unfold clean.
  rewrite clean_lines_no_start by assumption. reflexivity.
Qed.

Lemma clean_without_rule_start_raises_witness :
  clean Scenario.headed_file 1 Scenario.syntax_message EmptyString
  = (Raise (start_not_found Scenario.syntax_message 1), Scenario.headed_file).
Proof.
  apply (clean_without_rule_start_raises Scenario.headed_file 1 Scenario.syntax_message).
  - lia.
  - intros i line Hi Hl. assert (i = O) as -> by lia.
    injection Hl as <-. reflexivity.
Defined.

(** ** Repairs by rename *)

Lemma clean_lines_rename (f_lines : list string) (eline : Z) (message name : string) :
  name <> EmptyString ->
  clean_lines f_lines eline message name
  = match norm_index f_lines (eline - 1) with
    | Some k =>
        match f_lines !! k with
        | Some line => Return (<[k := replace line name (name +:+ "_1")]> f_lines, name)
        | None => Raise IndexError
        end
    | None => Raise IndexError
    end.
Proof.
  intros Hname. unfold clean_lines.
  destruct (String.eqb_spec name EmptyString) as [->|_]; [congruence|].
  cbn [negb]. unfold getitem.
  destruct (norm_index f_lines (eline - 1)) as [k|]; [|reflexivity].
  destruct (f_lines !! k); reflexivity.
Qed.

(** A rename that returns keeps the number of lines. *)
Lemma clean_rename_length (rulefile : list string) (eline : Z) (message name r : string)
    (rulefile' : list string) :
  name <> EmptyString ->
  clean rulefile eline message name = (Return r, rulefile') ->
  length rulefile' = length rulefile.
Proof.
  intros Hname. unfold clean. rewrite clean_lines_rename by assumption.
  destruct (norm_index rulefile (eline - 1)) as [k|]; [|discriminate].
  destruct (rulefile !! k); [|discriminate].
  intros [= _ <-]. apply length_insert.
Qed.



(** [str.replace] leaves a string without an occurrence as it is. *)
Lemma replace_go_absent (old new : string) :
  forall s, contains old s = false -> replace_go old new 0 s = s.
Proof.
  induction s as [|c s IH]; intros H; [reflexivity|].
  cbn [contains] in H. apply orb_false_elim in H as [Hp Hc].
  cbn [replace_go]. rewrite Hp. f_equal. now apply IH.
Qed.

Lemma replace_go_skip (old new : string) :
  forall t post, replace_go old new (String.length t) (t +:+ post) = replace_go old new 0 post.
Proof.
  induction t as [|c t IH]; intros post.
  - destruct post; reflexivity.
  - change (String c t +:+ post) with (String c (t +:+ post)).
    cbn [String.length replace_go]. apply IH.
Qed.

Lemma prefix_append (p s : string) : String.prefix p (p +:+ s) = true.
Proof.
  induction p as [|c p IH].
  - now destruct s.
  - change (String c p +:+ s) with (String c (p +:+ s)). cbn [String.prefix].
    destruct (ascii_dec c c); [exact IH|congruence].
Qed.

Lemma sdrop_append (p s : string) : sdrop (String.length p) (p +:+ s) = s.
Proof.
  induction p as [|c p IH]; [now destruct s|].
  change (String c p +:+ s) with (String c (p +:+ s)). exact IH.
Qed.

(** [str.replace] at the first occurrence: the text before it is kept, the
    occurrence is replaced, and the replacement goes on after it. *)
Lemma replace_go_first (old new : string) :
  old <> EmptyString ->
  forall pre post,
    (forall i : nat, (i < String.length pre)%nat ->
       String.prefix old (sdrop i (pre +:+ old +:+ post)) = false) ->
    replace_go old new 0 (pre +:+ old +:+ post)
    = pre +:+ new +:+ replace_go old new 0 post.
Proof.
  intros Hold. induction pre as [|c pre IH]; intros post Hno.
  - change (EmptyString +:+ old +:+ post) with (old +:+ post).
    change (EmptyString +:+ new +:+ replace_go old new 0 post)
      with (new +:+ replace_go old new 0 post).
    destruct old as [|c old]; [congruence|].
    change (String c old +:+ post) with (String c (old +:+ post)).
    cbn [replace_go].
    change (String c (old +:+ post)) with (String c old +:+ post).
    rewrite prefix_append.
    replace (String.length (String c old) - 1)%nat with (String.length old)
      by (cbn [String.length]; lia).
    now rewrite replace_go_skip.
  - change (String c pre +:+ old +:+ post) with (String c (pre +:+ old +:+ post)).
    cbn [replace_go].
    change (String c (pre +:+ old +:+ post)) with (String c pre +:+ old +:+ post).
    pose proof (Hno O ltac:(cbn; lia)) as H0. cbn [sdrop] in H0. rewrite H0.
    change (String c pre +:+ new +:+ replace_go old new 0 post)
      with (String c (pre +:+ new +:+ replace_go old new 0 post)).
    f_equal. apply IH. intros i Hi. apply (Hno (S i)). cbn. lia.
Qed.

Lemma replace_first_first (old new : string) :
  old <> EmptyString ->
  forall pre post,
    (forall i : nat, (i < String.length pre)%nat ->
       String.prefix old (sdrop i (pre +:+ old +:+ post)) = false) ->
    Spec.replace_first old new (pre +:+ old +:+ post) = pre +:+ new +:+ post.
Proof.
  intros Hold. induction pre as [|c pre IH]; intros post Hno.
  - change (EmptyString +:+ old +:+ post) with (old +:+ post).
    change (EmptyString +:+ new +:+ post) with (new +:+ post).
    destruct old as [|c old]; [congruence|].
    change (String c old +:+ post) with (String c (old +:+ post)).
    cbn [Spec.replace_first].
    change (String c (old +:+ post)) with (String c old +:+ post).
    now rewrite prefix_append, sdrop_append.
  - change (String c pre +:+ old +:+ post) with (String c (pre +:+ old +:+ post)).
    cbn [Spec.replace_first].
    change (String c (pre +:+ old +:+ post)) with (String c pre +:+ old +:+ post).
    pose proof (Hno O ltac:(cbn; lia)) as H0. cbn [sdrop] in H0. rewrite H0.
    change (String c pre +:+ new +:+ post) with (String c (pre +:+ new +:+ post)).
    f_equal. apply IH. intros i Hi. apply (Hno (S i)). cbn. lia.
Qed.

(** C3 (as amended): for a duplicated identifier reported on a line of the
    file, [clean] returns the name and rewrites that line with
    [str.replace], which renames every occurrence of the identifier on the
    line, from left to right: a line without the identifier is kept, and at
    the first occurrence the text before it is kept, the identifier gets the
    suffix [_1], and the rest of the line is rewritten in the same way.  No
    line is removed. *)
Theorem clean_renames_every_occurrence (rulefile : list string) (eline : Z)
    (message name line : string) :
  name <> EmptyString ->
  1 <= eline ->
  rulefile !! Z.to_nat (eline - 1) = Some line ->
  clean rulefile eline message name
  = (Return name,
     <[Z.to_nat (eline - 1) := replace line name (name +:+ "_1")]> rulefile)
  /\ length (clean rulefile eline message name).2 = length rulefile
  /\ (contains name line = false -> replace line name (name +:+ "_1") = line)
  /\ (forall pre post,
        line = pre +:+ name +:+ post ->
        (forall i : nat, (i < String.length pre)%nat ->
           String.prefix name (sdrop i line) = false) ->
        replace line name (name +:+ "_1")
        = pre +:+ (name +:+ "_1") +:+ replace post name (name +:+ "_1")).
Proof.
  intros Hname Hpos Hline.
  assert (clean rulefile eline message name
          = (Return name,
             <[Z.to_nat (eline - 1) := replace line name (name +:+ "_1")]> rulefile)) as Hc.
  { unfold clean. rewrite clean_lines_rename by assumption.
    pose proof (lookup_lt_Some _ _ _ Hline) as Hlt.
    rewrite norm_index_in_range by lia. now rewrite Hline. }
  split; [exact Hc|]. split; [rewrite Hc; apply length_insert|].
  assert (forall s, replace s name (name +:+ "_1") = replace_go name (name +:+ "_1") 0 s) as Hr.
  { intros s. unfold replace. destruct name; [congruence|reflexivity]. }
  split.
  - intros Habs. rewrite Hr. now apply replace_go_absent.
  - intros pre post -> Hno. rewrite !Hr. now apply replace_go_first.
Qed.

Lemma clean_renames_every_occurrence_witness :
  clean Scenario.duplicated_pe 2 "duplicated identifier" "pe"
  = (Return "pe",
     ["rule pe { condition: true }" +:+ NL;
      "rule pe_1 : pe_1_file { condition: false }" +:+ NL]).
Proof.
  exact (proj1 (clean_renames_every_occurrence Scenario.duplicated_pe 2
                  "duplicated identifier" "pe"
                  ("rule pe : pe_file { condition: false }" +:+ NL)
                  ltac:(discriminate) ltac:(lia) eq_refl)).
Defined.

(** C3 (as stated) fails: the identifier [pe] occurs twice on the line of the
    second rule, and both occurrences are renamed, where a rename of the
    first occurrence only would keep the tag [pe_file]. *)
Lemma rename_reaches_later_occurrences :
  (clean Scenario.duplicated_pe 2 "duplicated identifier" "pe").2
  = ["rule pe { condition: true }" +:+ NL;
     "rule pe_1 : pe_1_file { condition: false }" +:+ NL]
  /\ (clean Scenario.duplicated_pe 2 "duplicated identifier" "pe").2
     <> <[1%nat := Spec.replace_first "pe" "pe_1"
                     ("rule pe : pe_file { condition: false }" +:+ NL)]>
          Scenario.duplicated_pe.
Proof. split; [reflexivity|]. vm_compute. discriminate. Qed.

(** ** The validation loop *)



Lemma getitem_not_out_of_fuel {A} (l : list A) (i : Z) : getitem l i <> OutOfFuel.
Proof.
  unfold getitem. destruct (norm_index l i) as [k|]; [|discriminate].
  destruct (l !! k); discriminate.
Qed.

Lemma parse_error_not_out_of_fuel (error : string) : parse_error error <> OutOfFuel.
Proof.
  unfold parse_error.
  destruct (getitem (split error "):" 1) 0) as [head| |] eqn:E1; bind_step;
    [|discriminate|now apply getitem_not_out_of_fuel in E1].
  destruct (getitem (split head "(" (-1)) 1) as [number| |] eqn:E2; bind_step;
    [|discriminate|now apply getitem_not_out_of_fuel in E2].
  destruct (int number) as [e_line| |] eqn:E3; bind_step;
    [|discriminate|].
  2:{ unfold int in E3. destruct (strip number) as [|c r]; cbn in E3.
      - discriminate.
      - repeat match type of E3 with
               | context [match ?x with _ => _ end] => destruct x; try discriminate
               end. }
  destruct (getitem (split error "): " 1) 1) as [e_message| |] eqn:E4; bind_step;
    [|discriminate|now apply getitem_not_out_of_fuel in E4].
  destruct (contains "duplicated identifier" error).
  - destruct (getitem (split e_message DQUOTE (-1)) 1) as [name| |] eqn:E5; bind_step;
      [discriminate|discriminate|now apply getitem_not_out_of_fuel in E5].
  - discriminate.
Qed.

(** One repair by removal at a line of the file: the file never grows, and it
    shrinks when the error line is the last line or no rule starts on it. *)
Lemma removal_shrinks (rulefile : list string) (eline : Z) (message r : string)
    (rulefile' : list string) :
  1 <= eline ->
  clean rulefile eline message EmptyString = (Return r, rulefile') ->
  (length rulefile' <= length rulefile)%nat
  /\ (eline = Z.of_nat (length rulefile)
      \/ (forall line, rulefile !! Z.to_nat (eline - 1) = Some line ->
                       rulestart_match line = false) ->
      (length rulefile' < length rulefile)%nat).
Proof.
  intros Hpos Hc. unfold clean in Hc.
  destruct (decide (eline <= Z.of_nat (length rulefile))) as [Hin|Hout].
  - destruct (clean_lines_removal_cases rulefile eline message ltac:(lia))
      as [[ex Hex]|(s & e & name & Hse & He & Hstart & Hsame & Hres)].
    + rewrite Hex in Hc. discriminate.
    + rewrite Hres in Hc. injection Hc as _ <-.
      rewrite length_app, length_take, length_drop.
      case_bool_decide as Hlast.
      * split; [lia|]. intros _. lia.
      * split; [lia|]. intros [Heq|Hno]; [lia|].
        destruct (decide (s = e)) as [->|Hne]; [|lia].
        specialize (Hsame eq_refl). subst e.
        destruct (Hstart eq_refl) as (line & Hl & Hm).
        rewrite (Hno line Hl) in Hm. discriminate.
  - rewrite clean_lines_above in Hc by lia. discriminate.
Qed.

Lemma removal_not_out_of_fuel (rulefile : list string) (eline : Z) (message : string) :
  1 <= eline -> (clean rulefile eline message EmptyString).1 <> OutOfFuel.
Proof.
  intros Hpos. unfold clean.
  destruct (decide (eline <= Z.of_nat (length rulefile))) as [Hin|Hout].
  - destruct (clean_lines_removal_cases rulefile eline message ltac:(lia))
      as [[ex ->]|(s & e & name & _ & _ & _ & _ & ->)]; discriminate.
  - rewrite clean_lines_above by lia. discriminate.
Qed.

Lemma validate_rules_loop_ends (paranoid_check : list string -> string * string) :
  shrinking_reports paranoid_check ->
  forall (fuel : nat) (change : bool) (rulefile : list string),
    (length rulefile < fuel)%nat ->
    (validate_rules_loop paranoid_check fuel change rulefile).1 <> OutOfFuel.
Proof.
  intros Hshrink. induction fuel as [|fuel IH]; intros change rulefile Hfuel; [lia|].
  cbn [validate_rules_loop].
  destruct (paranoid_rule_check paranoid_check rulefile) as [e|] eqn:He; [|discriminate].
  destruct (startswith (str_of_exn e) "yara.SyntaxError") eqn:Hs; [|discriminate].
  destruct (parse_error (str_of_exn e)) as [[[e_line e_message] name]| |] eqn:Hp;
    [|discriminate|now apply parse_error_not_out_of_fuel in Hp].
  destruct (Hshrink rulefile e e_line e_message name He Hs Hp) as (-> & Hpos & Hline).
  destruct (clean rulefile e_line e_message EmptyString) as [[r| |] rulefile'] eqn:Hc.
  - destruct (removal_shrinks _ _ _ _ _ Hpos Hc) as [_ Hlt].
    apply IH. specialize (Hlt Hline). lia.
  - discriminate.
  - pose proof (removal_not_out_of_fuel rulefile e_line e_message Hpos) as Hn.
    rewrite Hc in Hn. now cbn in Hn.
Qed.

(** C2 (as amended): [validate_rules] has no bound on its iterations; it
    ends when the check passes or an exception is raised.  When every syntax
    error the check reports is repaired by a removal at the last line or at
    a line on which no rule starts, the loop ends within one check more than
    the file has lines, because such a repair, when it does not abort,
    strictly reduces the number of lines.  A removal at a line of the file
    never adds a line, and a rename keeps the number of lines. *)
Theorem validate_rules_ends_when_repairs_shrink
    (paranoid_check : list string -> string * string) (rulefile : list string) :
  shrinking_reports paranoid_check ->
  (validate_rules paranoid_check (S (length rulefile)) rulefile).1 <> OutOfFuel
  /\ (forall f eline message r f',
        1 <= eline ->
        clean f eline message EmptyString = (Return r, f') ->
        (length f' <= length f)%nat
        /\ (eline = Z.of_nat (length f)
            \/ (forall line, f !! Z.to_nat (eline - 1) = Some line ->
                             rulestart_match line = false) ->
            (length f' < length f)%nat))
  /\ (forall f eline message name r f',
        name <> EmptyString ->
        clean f eline message name = (Return r, f') ->
        length f' = length f).
Proof.
  intros Hshrink. split; [|split].
  - apply validate_rules_loop_ends; [assumption|lia].
  - intros f eline message r f'. apply removal_shrinks.
  - intros f eline message name r f'. apply clean_rename_length.
Qed.

Lemma validate_rules_ends_when_repairs_shrink_witness :
  (validate_rules Scenario.check_last_line 3 ["rule A {" +:+ NL; "bad syntax" +:+ NL]).1
  <> OutOfFuel.
Proof.
  refine (proj1 (validate_rules_ends_when_repairs_shrink Scenario.check_last_line
                   ["rule A {" +:+ NL; "bad syntax" +:+ NL] _)).
  intros f e e_line e_message name He Hs Hp.
  destruct f as [|a [|b [|c f]]]; try discriminate He.
  injection He as <-. injection Hp as <- <- <-.
  split; [reflexivity|]. split; [lia|]. left. reflexivity.
Defined.

(** C2 (as stated) fails: a rename and a removal at the line that declares a
    rule both return without an exception and leave the number of lines as
    it was, and with a check that keeps reporting rule B the loop of
    [validate_rules] is still running after any number of iterations. *)
Lemma validation_loop_has_no_bound :
  (exists r f', clean Scenario.duplicated_pe 2 "duplicated identifier" "pe" = (Return r, f')
                /\ length f' = length Scenario.duplicated_pe)
  /\ (exists r f', clean Scenario.three_rules 2 Scenario.syntax_message EmptyString
                   = (Return r, f')
                   /\ length f' = length Scenario.three_rules)
  /\ (forall fuel,
        (validate_rules Scenario.check_rule_B fuel Scenario.three_rules).1 = OutOfFuel).
Proof.
  split; [|split].
  - eexists _, _. split; reflexivity.
  - eexists _, _. split; reflexivity.
  - intros fuel. unfold validate_rules. now rewrite check_rule_B_loops.
Qed.

(** ** [guess_category] and the category metadata *)

Lemma guess_items_find (cat : string) (items : list string) (rule_file_name : string) :
  guess_items cat items rule_file_name
  = snd <$> List.find (fun kc => contains (fst kc) rule_file_name)
                      (item ← items; [(item, cat)]).
Proof.
  induction items as [|item items IH]; [reflexivity|].
  cbn [guess_items]. cbn. destruct (contains item rule_file_name); [reflexivity|].
  exact IH.
Qed.

Lemma find_app {A} (p : A -> bool) (l1 l2 : list A) :
  List.find p (l1 ++ l2)
  = match List.find p l1 with Some x => Some x | None => List.find p l2 end.
Proof.
  induction l1 as [|x l1 IH]; [reflexivity|].
  cbn. destruct (p x); [reflexivity|exact IH].
Qed.

Lemma guess_cats_find (cats : list (string * list string)) (rule_file_name : string) :
  guess_cats cats rule_file_name
  = snd <$> List.find (fun kc => contains (fst kc) rule_file_name)
                      ('(cat, items) ← cats; item ← items; [(item, cat)]).
Proof.
  induction cats as [|[cat items] cats IH]; [reflexivity|].
  cbn [guess_cats]. rewrite guess_items_find, IH.
  change ('(cat0, items0) ← (cat, items) :: cats; item ← items0; [(item, cat0)])
    with ((item ← items; [(item, cat)]) ++
          ('(cat0, items0) ← cats; item ← items0; [(item, cat0)])).
  rewrite find_app.
  destruct (List.find _ (item ← items; [(item, cat)])); reflexivity.
Qed.

Lemma guess_category_not_empty (rule_file_name cat : string) :
  guess_category rule_file_name = Some cat -> cat <> EmptyString.
Proof.
  unfold guess_category, cat_map. cbn [guess_cats guess_items].
  repeat (destruct (contains _ rule_file_name); [intros [= <-]; discriminate|]).
  discriminate.
Qed.

(** C9: [guess_category] answers the category of the first keyword, in the
    order of the table, that is a substring of the file name, and [None] when
    no keyword is; with a guessed category every rule of the file gets the
    entry [category] after the metadata it already has, which stay as they
    are, and the other fields of the rule are untouched; without one the
    rules are left as they are. *)
Theorem guess_category_and_stamp (rule_file_name : string) (signatures : list signature) :
  guess_category rule_file_name = Spec.first_keyword_category rule_file_name
  /\ (guess_category rule_file_name = None ->
      (forall kc, kc ∈ Spec.keyword_table -> contains kc.1 rule_file_name = false)
      /\ stamp_category (guess_category rule_file_name) signatures = signatures)
  /\ (forall cat,
        guess_category rule_file_name = Some cat ->
        length (stamp_category (Some cat) signatures) = length signatures
        /\ forall (i : nat) s,
             signatures !! i = Some s ->
             exists s',
               stamp_category (Some cat) signatures !! i = Some s'
               /\ metadata s' = Some (default [] (metadata s) ++ [("category", MStr cat)])
               /\ rule_name s' = rule_name s /\ imports s' = imports s /\ raw s' = raw s).
Proof.
  assert (guess_category rule_file_name = Spec.first_keyword_category rule_file_name) as Heq.
  { unfold guess_category, Spec.first_keyword_category, Spec.keyword_table.
    apply guess_cats_find. }
  split; [exact Heq|]. split.
  - intros Hnone. split.
    + rewrite Heq in Hnone. unfold Spec.first_keyword_category in Hnone.
      destruct (List.find _ Spec.keyword_table) as [kc|] eqn:Hf; [discriminate|].
      intros kc Hkc. apply list_elem_of_In in Hkc.
      exact (find_none _ _ Hf kc Hkc).
    + rewrite Hnone. reflexivity.
  - intros cat Hcat. pose proof (guess_category_not_empty _ _ Hcat) as Hne.
    assert (stamp_category (Some cat) signatures = map (append_category cat) signatures) as ->.
    { unfold stamp_category. destruct cat; [congruence|reflexivity]. }
    split; [apply length_map|].
    intros i s Hs. exists (append_category cat s). split.
    + change (map (append_category cat) signatures) with (append_category cat <$> signatures).
      rewrite list_lookup_fmap, Hs. reflexivity.
    + unfold append_category. destruct (metadata s) eqn:Hm; cbn; rewrite ?Hm; auto.
Qed.

Lemma guess_category_and_stamp_witness :
  guess_category "/tmp/yara_updates/rules/cve_webshell.yar" = Some "tool"
  /\ exists s',
       stamp_category (Some "tool")
         [ {| rule_name := "r"; metadata := Some [("category", MStr "custom")];
              imports := []; raw := EmptyString |} ] !! O = Some s'
       /\ metadata s' = Some ([("category", MStr "custom")] ++ [("category", MStr "tool")])
       /\ rule_name s' = "r" /\ imports s' = [] /\ raw s' = EmptyString.
Proof.
  split; [reflexivity|].
  exact (proj2 (proj2 (proj2 (guess_category_and_stamp
           "/tmp/yara_updates/rules/cve_webshell.yar"
           [ {| rule_name := "r"; metadata := Some [("category", MStr "custom")];
                imports := []; raw := EmptyString |} ])) "tool" eq_refl) O _ eq_refl).
Defined.

(** ** [url_download] *)

Section DownloadFacts.

Variable session_head : source -> option (list (string * string)) -> outcome response.
Variable session_get : source -> option (list (string * string)) -> outcome response.
Variable iso_to_epoch : string -> outcome Z.
Variable last_modified_to_epoch : string -> outcome Z.
Variable epoch_to_http_date : Z -> string.

Local Abbreviation try_body :=
  (url_download_try session_head session_get iso_to_epoch last_modified_to_epoch
     epoch_to_http_date).
Local Abbreviation download :=
  (url_download session_head session_get iso_to_epoch last_modified_to_epoch
     epoch_to_http_date).

Lemma url_download_try_head_raises (fs : gmap string node) (dir : string) (src : source)
    (previous_update : timestamp) (e : exn) :
  (forall s, previous_update = IsoString s -> exists t, iso_to_epoch s = Return t) ->
  session_head src (headers src) = Raise e ->
  try_body fs dir src previous_update = Raise e.
Proof.
  intros Hiso Hhead. unfold url_download_try.
  destruct previous_update as [|s|t].
  - bind_step. now rewrite Hhead.
  - destruct (Hiso s eq_refl) as [t ->]. bind_step. now rewrite Hhead.
  - bind_step. now rewrite Hhead.
Qed.

(** C8 (as amended): [url_download] starts from an emptied download
    directory; when the request times out ([requests.Timeout]) it returns
    without a file and without ending the process; every other exception
    raised while downloading, a connection error among them, is logged and
    followed by [exit()], which ends the process. *)
Theorem url_download_timeout_returns_other_errors_exit (fs : gmap string node)
    (download_directory : string) (src : source) (previous_update : timestamp) :
  (forall s, previous_update = IsoString s -> exists t, iso_to_epoch s = Return t) ->
  let fs0 := makedirs (rmtree fs download_directory) download_directory in
  (session_head src (headers src) = Raise RequestsTimeout ->
   download fs download_directory src previous_update = (Return None, fs0))
  /\ (forall e, session_head src (headers src) = Raise e -> e <> RequestsTimeout ->
                download fs download_directory src previous_update = (Raise SystemExit, fs0))
  /\ (try_body fs0 download_directory src previous_update = Raise RequestsTimeout ->
      download fs download_directory src previous_update = (Return None, fs0))
  /\ (forall e, try_body fs0 download_directory src previous_update = Raise e ->
                e <> RequestsTimeout ->
                download fs download_directory src previous_update = (Raise SystemExit, fs0)).
Proof.
  intros Hiso fs0.
  assert (forall e, try_body fs0 download_directory src previous_update = Raise e ->
                    download fs download_directory src previous_update
                    = (match e with RequestsTimeout => Return None | _ => Raise SystemExit end,
                       fs0)) as Hhandler.
  { intros e He. unfold url_download. fold fs0. rewrite He. destruct e; reflexivity. }
  repeat split.
  - intros Hhead. apply (Hhandler RequestsTimeout).
    now apply url_download_try_head_raises.
  - intros e Hhead Hne. rewrite (Hhandler e).
    + destruct e; congruence.
    + now apply url_download_try_head_raises.
  - intros Htry. apply (Hhandler RequestsTimeout Htry).
  - intros e Htry Hne. rewrite (Hhandler e Htry). destruct e; congruence.
Qed.

End DownloadFacts.

Lemma url_download_timeout_returns_other_errors_exit_witness :
  url_download Scenario.time_out Scenario.time_out Scenario.no_date Scenario.no_date
    Scenario.no_http_date ∅ "/tmp/yara_updates" Scenario.http_source NoUpdate
  = (Return None, makedirs (rmtree ∅ "/tmp/yara_updates") "/tmp/yara_updates").
Proof.
  refine (proj1 (url_download_timeout_returns_other_errors_exit Scenario.time_out
                   Scenario.time_out Scenario.no_date Scenario.no_date Scenario.no_http_date
                   ∅ "/tmp/yara_updates" Scenario.http_source NoUpdate _) eq_refl).
  intros s Hs. discriminate Hs.
Defined.

(** C8 (as stated) fails: a refused connection is not passed over, the
    process is ended by [exit()]. *)
Lemma connection_error_ends_the_process :
  (url_download Scenario.refuse Scenario.refuse Scenario.no_date Scenario.no_date
     Scenario.no_http_date ∅ "/tmp/yara_updates" Scenario.http_source NoUpdate).1
  = Raise SystemExit.
Proof. reflexivity. Qed.

(** ** [replace_include] *)

Lemma extends_refl (fs : gmap string node) (st : include_state) : extends fs st st.
Proof.
  exists []. rewrite app_nil_r. split; [reflexivity|]. split; [constructor|].
  split; [intros p Hp; inversion Hp|].
  cbn. set_solver.
Qed.

Lemma extends_trans (fs : gmap string node) (st1 st2 st3 : include_state) :
  extends fs st1 st2 -> extends fs st2 st3 -> extends fs st1 st3.
Proof.
  intros (n1 & Ho1 & Hd1 & Hn1 & Hp1) (n2 & Ho2 & Hd2 & Hn2 & Hp2).
  assert (forall p, p ∈ n2 -> p ∉ n1) as Hdisj.
  { intros p Hp Hp'. destruct (Hn2 p Hp) as [Hnot _]. rewrite Hp1 in Hnot.
    apply Hnot, elem_of_union. right. now apply elem_of_list_to_set. }
  exists (n1 ++ n2). split; [|split; [|split]].
  - rewrite Ho2, Ho1. now rewrite app_assoc.
  - apply NoDup_app. split; [assumption|]. split; [|assumption].
    intros p Hp Hp'. exact (Hdisj p Hp' Hp).
  - intros p Hp. apply elem_of_app in Hp as [Hp|Hp]; [now apply Hn1|].
    destruct (Hn2 p Hp) as [Hnot Hdom]. split; [|exact Hdom].
    intros Hin. apply Hnot. rewrite Hp1. apply elem_of_union. now left.
  - rewrite Hp2, Hp1. set_solver.
Qed.

Lemma extends_subseteq (fs : gmap string node) (st st' : include_state) :
  extends fs st st' -> st.1 ⊆ st'.1.
Proof. intros (n & _ & _ & _ & ->). set_solver. Qed.

Lemma pending_mono (fs : gmap string node) (st st' : include_state) :
  st.1 ⊆ st'.1 -> (pending fs st' <= pending fs st)%nat.
Proof. intros H. unfold pending. apply subseteq_size. set_solver. Qed.

Lemma pending_add (fs : gmap string node) (processed : gset string) (opened opened' : list string)
    (p : string) :
  p ∈ dom fs -> p ∉ processed ->
  (pending fs (processed ∪ {[p]}, opened') < pending fs (processed, opened))%nat.
Proof.
  intros Hin Hnot. unfold pending. cbn [fst]. apply subset_size.
  apply strict_spec_alt. split; [set_solver|]. intros Heq.
  assert (p ∈ dom fs ∖ processed) as Hp by set_solver.
  rewrite <- Heq in Hp. set_solver.
Qed.

Lemma pending_le_size (fs : gmap string node) (st : include_state) :
  (pending fs st <= size fs)%nat.
Proof.
  unfold pending. rewrite <- (size_dom (D:=gset string) fs). apply subseteq_size. set_solver.
Qed.

Lemma exists_dom (fs : gmap string node) (p : string) :
  exists_ fs p = true -> p ∈ dom fs.
Proof.
  unfold exists_. intros H. apply bool_decide_eq_true in H. now apply elem_of_dom.
Qed.

(** The loop over the lines of a file, for a [resolve] that behaves on every
    state with fewer than [fuel] pending files. *)
Lemma include_loop_resolved (fs : gmap string node) (fuel : nat)
    (resolve : string -> include_state -> outcome (list string * include_state)) :
  (forall line st, (pending fs st < fuel)%nat -> resolved fs st (resolve line st)) ->
  forall lines temp_lines st,
    (pending fs st < fuel)%nat ->
    resolved fs st (include_loop resolve lines temp_lines st).
Proof.
  intros Hres. induction lines as [|line lines IH]; intros temp_lines st Hfuel.
  - cbn. apply extends_refl.
  - cbn [include_loop]. destruct (startswith line "include"); [|now apply IH].
    pose proof (Hres line st Hfuel) as Hr.
    destruct (resolve line st) as [[inlined st']| |]; bind_step; [|exact I|exact Hr].
    cbn [resolved] in Hr.
    assert (pending fs st' < fuel)%nat as Hfuel'.
    { pose proof (pending_mono fs st st' (extends_subseteq _ _ _ Hr)). lia. }
    pose proof (IH (temp_lines ++ inlined) st' Hfuel') as Hl.
    destruct (include_loop resolve lines (temp_lines ++ inlined) st') as [[ls st'']| |];
      [|exact I|exact Hl].
    cbn [resolved] in *. eapply extends_trans; eassumption.
Qed.

Lemma replace_include_resolved (fs : gmap string node) :
  forall (fuel : nat) (include dirname : string) (st : include_state),
    (pending fs st < fuel)%nat ->
    resolved fs st (replace_include fuel fs include dirname st).
Proof.
  induction fuel as [|fuel IH]; intros include dirname st Hfuel; [lia|].
  cbn [replace_include].
  destruct (include_path_of include) as [include_path| |] eqn:Hpath; bind_step;
    [|exact I|].
  2:{ unfold include_path_of in Hpath.
      repeat match type of Hpath with
             | context [match ?x with _ => _ end] => destruct x; try discriminate
             | context [if ?x then _ else _] => destruct x; try discriminate
             end. }
  set (full := normpath (join dirname include_path)).
  destruct (exists_ fs full) eqn:Hex; cbn [negb]; [|apply extends_refl].
  destruct st as [processed opened].
  case_bool_decide as Hnew; [|apply extends_refl].
  unfold open_readlines.
  destruct (fs !! full) as [[text|]|] eqn:Hfile; bind_step; try exact I.
  pose proof (exists_dom _ _ Hex) as Hdom.
  pose proof (pending_add fs processed opened (opened ++ [full]) full Hdom Hnew) as Hless.
  pose proof (include_loop_resolved fs fuel
                (fun line => replace_include fuel fs line (Os.dirname full))) as Hloop.
  specialize (Hloop (fun line st Hst => IH line (Os.dirname full) st Hst)
                (readlines text) [NL] (processed ∪ {[full]}, opened ++ [full])
                ltac:(lia)).
  destruct (include_loop _ (readlines text) [NL] (processed ∪ {[full]}, opened ++ [full]))
    as [[ls st']| |]; [|exact I|exact Hloop].
  cbn [resolved] in *.
  eapply extends_trans; [|exact Hloop].
  exists [full]. cbn [fst snd]. split; [reflexivity|]. split; [apply NoDup_singleton|].
  split.
  - intros p Hp. apply list_elem_of_singleton in Hp as ->. now split.
  - cbn. set_solver.
Qed.

(** C6: for every file system, every include line and every state,
    [replace_include] with one unit of fuel more than there are files comes
    to an end: it returns or raises.  When it returns, the files it opened
    are distinct, none of them was in [processed_files] before, and all of
    them are in it afterwards, so no file is inlined twice.  An include whose
    target exists and is already in [processed_files] opens no file, leaves
    the state as it is and contributes the separating line feed alone. *)
Theorem replace_include_terminates_and_inlines_once (fs : gmap string node)
    (include dirname : string) (processed_files : gset string) (opened : list string) :
  match replace_include (S (size fs)) fs include dirname (processed_files, opened) with
  | Return (_, (processed_files', opened')) =>
      exists new : list string,
        opened' = opened ++ new /\ NoDup new /\
        (forall p, p ∈ new -> p ∉ processed_files /\ p ∈ dom fs) /\
        processed_files' = processed_files ∪ list_to_set new
  | Raise _ => True
  | OutOfFuel => False
  end
  /\ (forall include_path fuel,
        include_path_of include = Return include_path ->
        exists_ fs (normpath (join dirname include_path)) = true ->
        normpath (join dirname include_path) ∈ processed_files ->
        replace_include (S fuel) fs include dirname (processed_files, opened)
        = Return ([NL], (processed_files, opened))).
Proof.
  split.
  - pose proof (replace_include_resolved fs (S (size fs)) include dirname
                  (processed_files, opened)) as H.
    pose proof (pending_le_size fs (processed_files, opened)).
    specialize (H ltac:(lia)).
    destruct (replace_include _ fs include dirname _) as [[ls [p' o']]| |]; exact H.
  - intros include_path fuel Hpath Hex Hin. cbn [replace_include].
    rewrite Hpath. bind_step. rewrite Hex. cbn [negb].
    case_bool_decide; [contradiction|reflexivity].
Qed.

Lemma replace_include_terminates_and_inlines_once_witness :
  replace_include 1 Scenario.cyclic_fs (Scenario.include_line "a.yar") "/rules"
    ({["/rules/a.yar"]}, ["/rules/a.yar"])
  = Return ([NL], ({["/rules/a.yar"]}, ["/rules/a.yar"])).
Proof.
  refine (proj2 (replace_include_terminates_and_inlines_once Scenario.cyclic_fs
                   (Scenario.include_line "a.yar") "/rules" {["/rules/a.yar"]}
                   ["/rules/a.yar"]) "a.yar" O eq_refl _ _).
  - vm_compute. reflexivity.
  - apply elem_of_singleton. vm_compute. reflexivity.
Defined.

(** A file that includes itself and a file that includes it back: the
    resolution ends, and each of the two files is opened once. *)
Example cyclic_includes_resolve :
  match replace_include 3 Scenario.cyclic_fs (Scenario.include_line "a.yar") "/rules" (∅, []) with
  | Return (lines, (_, opened)) =>
      lines = [NL; NL; NL; NL; Scenario.rule_C +:+ NL; Scenario.rule_A +:+ NL]
      /\ opened = ["/rules/a.yar"; "/rules/b.yar"]
  | _ => False
  end.
Proof. vm_compute. split; reflexivity. Qed.

(** ** The hash gate of [yara_update] *)


Section UpdateFacts.

Variable session_head : source -> option (list (string * string)) -> outcome response.
Variable session_get : source -> option (list (string * string)) -> outcome response.
Variable iso_to_epoch : string -> outcome Z.
Variable last_modified_to_epoch : string -> outcome Z.
Variable epoch_to_http_date : Z -> string.
Variable git_clone_repo :
  gmap string node -> string -> source -> timestamp ->
  outcome (list string) * gmap string node.
Variable parse_string : string -> outcome (list signature).
Variable detect_imports : signature -> list string.
Variable rebuild_yara_rule : signature -> string.
Variable get_sha256 : string -> string.
Variable UNRESTRICTED : string.
Variable paranoid_check : list string -> string * string.
Variable import_file : string -> string -> string -> option exn.

Local Abbreviation gate := (record_hash get_sha256 UNRESTRICTED).
Local Abbreviation one_source :=
  (update_source session_head session_get iso_to_epoch last_modified_to_epoch
     epoch_to_http_date git_clone_repo parse_string detect_imports rebuild_yara_rule
     get_sha256 UNRESTRICTED).
Local Abbreviation all_sources :=
  (update_sources session_head session_get iso_to_epoch last_modified_to_epoch
     epoch_to_http_date git_clone_repo parse_string detect_imports rebuild_yara_rule
     get_sha256 UNRESTRICTED).
Local Abbreviation import_loop := (validate_and_import UNRESTRICTED paranoid_check import_file).
Local Abbreviation update :=
  (yara_update session_head session_get iso_to_epoch last_modified_to_epoch
     epoch_to_http_date git_clone_repo parse_string detect_imports rebuild_yara_rule
     get_sha256 UNRESTRICTED paranoid_check import_file).






End UpdateFacts.


(** * Further properties of the validator *)

(** The validation loop returns only on a file that passes the check.  The
    flag it returns is [False] exactly when the file passed at once, and the
    file is then the one that was given. *)
Lemma validate_rules_loop_returns_checked
    (paranoid_check : list string -> string * string) :
  forall (fuel : nat) (change : bool) (rulefile : list string) (b : bool)
         (rulefile' : list string),
    validate_rules_loop paranoid_check fuel change rulefile = (Return b, rulefile') ->
    paranoid_rule_check paranoid_check rulefile' = None
    /\ (paranoid_rule_check paranoid_check rulefile = None -> b = change /\ rulefile' = rulefile)
    /\ (paranoid_rule_check paranoid_check rulefile <> None -> b = true).
Proof.
  induction fuel as [|fuel IH]; intros change rulefile b rulefile'; [discriminate|].
  cbn [validate_rules_loop].
  destruct (paranoid_rule_check paranoid_check rulefile) as [e|] eqn:He.
  - destruct (startswith (str_of_exn e) "yara.SyntaxError"); [|discriminate].
    destruct (parse_error (str_of_exn e)) as [[[e_line e_message] name]| |];
      [|discriminate..].
    destruct (clean rulefile e_line e_message name) as [[r| |] rulefile1] eqn:Hc;
      [|discriminate..].
    intros Hloop. destruct (IH _ _ _ _ Hloop) as (Hchk & Hsame & Hrep).
    split; [exact Hchk|]. split; [discriminate|]. intros _.
    destruct (paranoid_rule_check paranoid_check rulefile1) eqn:H1.
    + apply Hrep. discriminate.
    + now destruct (Hsame eq_refl).
  - intros [= <- <-]. split; [exact He|]. split; [now split|]. congruence.
Qed.

(** X1: when [validate_rules] returns, the file it leaves passes the check;
    it returns [False] exactly when the file it was given passed at once, and
    that file is then untouched; after any repair it returns [True]. *)
Theorem validate_rules_returns_checked_file
    (paranoid_check : list string -> string * string) (fuel : nat)
    (rulefile rulefile' : list string) (change : bool) :
  validate_rules paranoid_check fuel rulefile = (Return change, rulefile') ->
  paranoid_rule_check paranoid_check rulefile' = None
  /\ (change = false <-> paranoid_rule_check paranoid_check rulefile = None)
  /\ (change = false -> rulefile' = rulefile).
Proof.
  intros Hrun. unfold validate_rules in Hrun.
  destruct (validate_rules_loop_returns_checked _ _ _ _ _ _ Hrun) as (Hchk & Hsame & Hrep).
  split; [exact Hchk|].
  destruct (paranoid_rule_check paranoid_check rulefile) as [e|] eqn:He.
  - assert (change = true) as -> by (apply Hrep; discriminate).
    split; [split; discriminate|discriminate].
  - destruct (Hsame eq_refl) as [-> ->]. split; [split; reflexivity|reflexivity].
Qed.

Lemma validate_rules_returns_checked_file_witness :
  paranoid_rule_check Scenario.check_last_line [] = None
  /\ (true = false <->
      paranoid_rule_check Scenario.check_last_line
        ["rule A {" +:+ NL; "bad syntax" +:+ NL] = None)
  /\ (true = false -> [] = ["rule A {" +:+ NL; "bad syntax" +:+ NL]).
Proof.
  apply (validate_rules_returns_checked_file Scenario.check_last_line 3
           ["rule A {" +:+ NL; "bad syntax" +:+ NL] [] true).
  vm_compute. reflexivity.
Defined.






(** ** The name read on a declaration line *)

Lemma span_app_stop (p : ascii -> bool) (name rest : string) (c : ascii) :
  span p name = (name, EmptyString) -> p c = false ->
  span p (name +:+ String c rest) = (name, String c rest).
Proof.
  revert rest. induction name as [|x name IH]; intros rest Hall Hc.
  - change (EmptyString +:+ String c rest) with (String c rest). cbn. now rewrite Hc.
  - change (String x name +:+ String c rest) with (String x (name +:+ String c rest)).
    cbn in Hall |- *. destruct (p x); [|discriminate].
    destruct (span p name) as [a b] eqn:Hs. injection Hall as -> ->.
    now rewrite (IH rest eq_refl Hc).
Qed.

Lemma span_app_end (p : ascii -> bool) (name : string) :
  span p name = (name, EmptyString) -> fst (span p name) = name.
Proof. now intros ->. Qed.

(** The search of [self.rulename] passes over a text in which the word
    [rule] followed by a space does not begin. *)
Lemma rulename_search_skip (m tail : string) :
  (forall i : nat, (i < String.length m)%nat ->
     String.prefix "rule " (sdrop i (m +:+ tail)) = false) ->
  rulename_search (m +:+ tail) = rulename_search tail.
Proof.
  induction m as [|c m IH]; intros Hno; [reflexivity|].
  change (String c m +:+ tail) with (String c (m +:+ tail)).
  cbn [rulename_search]. unfold startswith.
  change (String c (m +:+ tail)) with (String c m +:+ tail).
  pose proof (Hno O ltac:(cbn; lia)) as H0. cbn [sdrop] in H0. rewrite H0.
  apply IH. intros i Hi. apply (Hno (S i)). cbn. lia.
Qed.

Lemma rulename_search_here (name tail : string) :
  fst (span rulename_class (name +:+ tail)) = name -> name <> EmptyString ->
  rulename_search ("rule " +:+ name +:+ tail) = Some name.
Proof.
  intros Hspan Hne.
  change ("rule " +:+ name +:+ tail)
    with (String "r" (String "u" (String "l" (String "e" (String " " (name +:+ tail)))))).
  cbn [rulename_search]. unfold startswith.
  change (String "r" (String "u" (String "l" (String "e" (String " " (name +:+ tail))))))
    with ("rule " +:+ name +:+ tail).
  rewrite prefix_append.
  change 5%nat with (String.length "rule "). rewrite sdrop_append.
  rewrite Hspan. destruct name; [congruence|reflexivity].
Qed.

(** X3: on a line that opens a rule, after any of the modifier prefixes the
    pattern allows, the name [clean] logs and returns is the text between
    the word [rule] and the first opening brace, caret or colon (or the end
    of the line), with the white space around it stripped; such a line is
    recognised as the start of a rule. *)
Theorem rulename_of_declaration (p name rest : string) (c : ascii) :
  p ∈ rulestart ->
  name <> EmptyString ->
  span rulename_class name = (name, EmptyString) ->
  rulename_class c = false ->
  rulename_of (p +:+ name +:+ String c rest) = Return (strip name)
  /\ rulename_of (p +:+ name) = Return (strip name)
  /\ rulestart_match (p +:+ name +:+ String c rest) = true.
Proof.
  intros Hp Hne Hall Hc.
  assert (forall tail, fst (span rulename_class (name +:+ tail)) = name ->
                       rulename_of (p +:+ name +:+ tail) = Return (strip name)) as Hof.
  { intros tail Hspan. unfold rulename_of.
    assert (exists m, p = m +:+ "rule " /\
                      forall i : nat, (i < String.length m)%nat ->
                        String.prefix "rule " (sdrop i (m +:+ "rule " +:+ name +:+ tail)) = false)
      as (m & -> & Hno).
    { unfold rulestart in Hp. cbn in Hp.
      repeat (apply elem_of_cons in Hp as [-> | Hp]);
        [exists "global private private " | exists "global private "
         | exists "global private " | exists "global "
         | exists "private private " | exists "private " | exists "private "
         | exists EmptyString | inversion Hp];
        (split; [reflexivity|]); intros i Hi; cbn [String.length] in Hi;
        do 24 (destruct i as [|i]; [first [lia | reflexivity]|]); lia. }
    replace ((m +:+ "rule ") +:+ name +:+ tail) with (m +:+ "rule " +:+ name +:+ tail).
    2:{ clear. induction m as [|x m IH]; [reflexivity|].
        change (String x m +:+ "rule " +:+ name +:+ tail)
          with (String x (m +:+ "rule " +:+ name +:+ tail)).
        change ((String x m +:+ "rule ") +:+ name +:+ tail)
          with (String x ((m +:+ "rule ") +:+ name +:+ tail)).
        now rewrite IH. }
    rewrite rulename_search_skip by exact Hno.
    now rewrite rulename_search_here. }
  split; [|split].
  - apply Hof. now rewrite (span_app_stop _ _ _ _ Hall Hc).
  - replace (p +:+ name) with (p +:+ name +:+ EmptyString).
    + apply Hof. replace (name +:+ EmptyString) with name; [now rewrite Hall|].
      clear. induction name as [|x name IH]; [reflexivity|].
      change (String x name +:+ EmptyString) with (String x (name +:+ EmptyString)).
      now rewrite <- IH.
    + f_equal. clear. induction name as [|x name IH]; [reflexivity|].
      change (String x name +:+ EmptyString) with (String x (name +:+ EmptyString)).
      now rewrite IH.
  - unfold rulestart_match. apply existsb_exists. exists p. split.
    + now apply list_elem_of_In.
    + unfold startswith. apply prefix_append.
Qed.

Lemma rulename_of_declaration_witness :
  rulename_of ("global private rule " +:+ "Trojan_X " +:+ String ":" " tag {")
  = Return (strip "Trojan_X ")
  /\ rulename_of ("global private rule " +:+ "Trojan_X ") = Return (strip "Trojan_X ")
  /\ rulestart_match ("global private rule " +:+ "Trojan_X " +:+ String ":" " tag {") = true.
Proof.
  apply (rulename_of_declaration "global private rule " "Trojan_X " " tag {" ":").
  - unfold rulestart. cbn. apply elem_of_cons. right. apply elem_of_cons. now left.
  - discriminate.
  - reflexivity.
  - reflexivity.
Defined.

(** ** Decimal numerals: [int(str(n))] *)




Lemma all_chars_impl (p q : ascii -> bool) (s : string) :
  (forall c, p c = true -> q c = true) -> all_chars p s = true -> all_chars q s = true.
Proof.
  intros Hpq. induction s as [|c s IH]; [reflexivity|]. cbn.
  intros H. apply andb_true_iff in H as [Hc Hs]. now rewrite (Hpq c Hc), IH.
Qed.



Lemma append_empty_r (s : string) : s +:+ EmptyString = s.
Proof.
  induction s as [|x s IH]; [reflexivity|].
  change (String x s +:+ EmptyString) with (String x (s +:+ EmptyString)). now rewrite IH.
Qed.











(** ** [str.split] at the first separator *)






Lemma all_chars_app (p : ascii -> bool) (a b : string) :
  all_chars p (a +:+ b) = all_chars p a && all_chars p b.
Proof.
  induction a as [|x a IH]; [reflexivity|].
  change (String x a +:+ b) with (String x (a +:+ b)). cbn [all_chars].
  rewrite IH. now rewrite andb_assoc.
Qed.

Lemma append_assoc_str (a b c : string) : (a +:+ b) +:+ c = a +:+ b +:+ c.
Proof.
  induction a as [|x a IH]; [reflexivity|].
  change ((String x a +:+ b) +:+ c) with (String x ((a +:+ b) +:+ c)).
  now rewrite IH.
Qed.



(** ** The text of a syntax error *)






(** * Further properties of the updater *)

(** ** The path of an include line *)

Lemma span_all (p : ascii -> bool) (s : string) :
  all_chars p s = true -> span p s = (s, EmptyString).
Proof.
  induction s as [|c s IH]; [reflexivity|]. cbn [all_chars span].
  intros H. apply andb_true_iff in H as [-> Hs]. now rewrite (IH Hs).
Qed.

Lemma span_line (p : ascii -> bool) (s ending : string) :
  all_chars p s = true ->
  ending = EmptyString \/ (exists c rest, ending = String c rest /\ p c = false) ->
  fst (span p (s +:+ ending)) = s.
Proof.
  intros Hs [->|(c & rest & -> & Hc)].
  - rewrite append_empty_r. now rewrite span_all.
  - now rewrite (span_app_stop p s rest c (span_all p s Hs) Hc).
Qed.

Lemma last_quote_none (s : string) :
  all_chars (fun c => negb (is_quote c)) s = true -> last_quote s = None.
Proof.
  induction s as [|c s IH]; [reflexivity|]. cbn [all_chars last_quote].
  intros H. apply andb_true_iff in H as [Hc Hs]. rewrite (IH Hs).
  destruct (is_quote c); [discriminate|reflexivity].
Qed.

Lemma last_quote_app (path tail : string) (q : ascii) :
  is_quote q = true -> last_quote tail = None ->
  last_quote (path +:+ String q tail) = Some (String.length path).
Proof.
  intros Hq Htail. induction path as [|c path IH].
  - change (EmptyString +:+ String q tail) with (String q tail).
    cbn [last_quote String.length]. now rewrite Htail, Hq.
  - change (String c path +:+ String q tail) with (String c (path +:+ String q tail)).
    cbn [last_quote String.length]. now rewrite IH.
Qed.

Lemma substring_prefix (a b : string) : substring 0 (String.length a) (a +:+ b) = a.
Proof.
  induction a as [|c a IH].
  - destruct b; reflexivity.
  - change (String c a +:+ b) with (String c (a +:+ b)). cbn. now rewrite IH.
Qed.

(** X5: an include line gives the text between its first quote and the last
    quote of the line, whichever of the two quote characters they are, when
    that text has four characters or more; with a shorter text the pattern
    does not match and the call raises [AttributeError]. *)
Theorem include_path_between_quotes (q1 q2 : ascii) (path tail ending : string) :
  is_quote q1 = true -> is_quote q2 = true ->
  all_chars not_newline path = true ->
  all_chars plain_char tail = true ->
  ending = EmptyString \/ (exists rest, ending = NL +:+ rest) ->
  include_path_of ("include " +:+ String q1 (path +:+ String q2 (tail +:+ ending)))
  = if (4 <=? String.length path)%nat then Return path else Raise AttributeError.
Proof.
  intros Hq1 Hq2 Hpath Htail Hend. unfold include_path_of, startswith.
  rewrite prefix_append.
  change 8%nat with (String.length "include "). rewrite sdrop_append. rewrite Hq1.
  assert (all_chars not_newline tail = true) as Htn.
  { eapply all_chars_impl; [|exact Htail]. intros c H. unfold plain_char in H.
    now apply andb_true_iff in H as [_ ?]. }
  assert (all_chars (fun c => negb (is_quote c)) tail = true) as Htq.
  { eapply all_chars_impl; [|exact Htail]. intros c H. unfold plain_char in H.
    now apply andb_true_iff in H as [? _]. }
  assert (not_newline q2 = true) as Hq2n.
  { unfold is_quote in Hq2. unfold not_newline.
    apply orb_true_iff in Hq2 as [H|H]; apply Ascii.eqb_eq in H; subst q2; reflexivity. }
  replace (path +:+ String q2 (tail +:+ ending))
    with ((path +:+ String q2 tail) +:+ ending).
  2:{ rewrite append_assoc_str. reflexivity. }
  change (fun c : ascii => negb (Ascii.eqb c (ascii_of_nat 10))) with not_newline.
  rewrite (span_line not_newline).
  - rewrite (last_quote_app path tail q2 Hq2 (last_quote_none tail Htq)).
    destruct (4 <=? String.length path)%nat; [|reflexivity].
    now rewrite substring_prefix.
  - rewrite all_chars_app. cbn [all_chars]. now rewrite Hpath, Hq2n, Htn.
  - destruct Hend as [->|[rest ->]]; [now left|]. right.
    exists (ascii_of_nat 10), rest. split; reflexivity.
Qed.

Lemma include_path_between_quotes_witness :
  include_path_of ("include " +:+ String (ascii_of_nat 34)
                     ("x.y" +:+ String (ascii_of_nat 34) (EmptyString +:+ (NL +:+ EmptyString))))
  = Raise AttributeError.
Proof.
  apply (include_path_between_quotes (ascii_of_nat 34) (ascii_of_nat 34) "x.y"
           EmptyString (NL +:+ EmptyString) eq_refl eq_refl eq_refl eq_refl).
  right. exists EmptyString. reflexivity.
Defined.

(** ** What the resolution of includes returns *)

Lemma include_loop_not_include
    (resolve : string -> include_state -> outcome (list string * include_state)) :
  (forall line st inlined st',
     resolve line st = Return (inlined, st') -> Forall not_include inlined) ->
  forall lines temp_lines st out st',
    Forall not_include temp_lines ->
    include_loop resolve lines temp_lines st = Return (out, st') ->
    Forall not_include out.
Proof.
  intros Hres. induction lines as [|line lines IH]; intros temp_lines st out st' Htemp.
  - cbn. now intros [= <- <-].
  - cbn [include_loop]. destruct (startswith line "include") eqn:Hinc.
    + destruct (resolve line st) as [[inlined st1]| |] eqn:Hr; bind_step; [|discriminate..].
      apply IH. apply Forall_app. split; [exact Htemp|]. eapply Hres. exact Hr.
    + apply IH. apply Forall_app. split; [exact Htemp|].
      apply Forall_singleton. exact Hinc.
Qed.

Lemma replace_include_not_include (fs : gmap string node) :
  forall (fuel : nat) (include dirname : string) (st : include_state) out st',
    replace_include fuel fs include dirname st = Return (out, st') ->
    Forall not_include out.
Proof.
  induction fuel as [|fuel IH]; intros include dirname st out st'; [discriminate|].
  cbn [replace_include].
  destruct (include_path_of include) as [include_path| |]; bind_step; [|discriminate..].
  destruct (exists_ fs (normpath (join dirname include_path))); cbn [negb].
  2:{ intros [= <- <-]. constructor. }
  destruct st as [processed opened].
  case_bool_decide.
  2:{ intros [= <- <-]. apply Forall_singleton. reflexivity. }
  destruct (open_readlines fs (normpath (join dirname include_path))) as [lines| |];
    bind_step; [|discriminate..].
  apply include_loop_not_include.
  - intros line st0 inlined st1. apply IH.
  - apply Forall_singleton. reflexivity.
Qed.

(** X6: no line that begins with the word [include] is handed on: neither by
    [replace_include] nor by the loop of [yara_update] that resolves the
    lines of a downloaded file before they are parsed. *)
Theorem resolved_text_has_no_include_line (fs : gmap string node) (fuel : nat)
    (dirname : string) (f_lines : list string) (st : include_state)
    (temp_lines : list string) (st' : include_state) :
  include_loop (fun f_line => replace_include fuel fs f_line dirname) f_lines [] st
  = Return (temp_lines, st') ->
  Forall not_include temp_lines
  /\ (forall include out st1,
        replace_include fuel fs include dirname st = Return (out, st1) ->
        Forall not_include out).
Proof.
  intros Hloop. split.
  - eapply include_loop_not_include; [|constructor|exact Hloop].
    intros line st0 inlined st1. apply replace_include_not_include.
  - intros include out st1. apply replace_include_not_include.
Qed.

Lemma resolved_text_has_no_include_line_witness :
  Forall not_include
    [NL; NL; NL; NL; Scenario.rule_C +:+ NL; Scenario.rule_A +:+ NL; Scenario.rule_B_bad +:+ NL].
Proof.
  refine (proj1 (resolved_text_has_no_include_line Scenario.cyclic_fs 3 "/rules"
                   [Scenario.include_line "a.yar"; Scenario.rule_B_bad +:+ NL] (∅, [])
                   _ ({["/rules/a.yar"]} ∪ {["/rules/b.yar"]} ∪ ∅,
                      ["/rules/a.yar"; "/rules/b.yar"]) _)).
  vm_compute. reflexivity.
Defined.




(** ** More about [url_download] *)

Section DownloadMore.

Variable session_head : source -> option (list (string * string)) -> outcome response.
Variable session_get : source -> option (list (string * string)) -> outcome response.
Variable iso_to_epoch : string -> outcome Z.
Variable last_modified_to_epoch : string -> outcome Z.
Variable epoch_to_http_date : Z -> string.

Local Abbreviation try_body :=
  (url_download_try session_head session_get iso_to_epoch last_modified_to_epoch
     epoch_to_http_date).
Local Abbreviation download :=
  (url_download session_head session_get iso_to_epoch last_modified_to_epoch
     epoch_to_http_date).

(** X8: when the previous update is known and the [Last-Modified] date of
    the answer to the [HEAD] request is not later, [url_download] returns
    without a file and sends no [GET] request: the result does not depend
    on what the remote side would answer to it. *)
Theorem url_download_skips_unmodified (fs : gmap string node)
    (download_directory : string) (src : source) (previous_update : timestamp)
    (t t' : Z) (head_response : response) (lm : string) :
  previous_update = Epoch t
  \/ (exists s, previous_update = IsoString s /\ iso_to_epoch s = Return t) ->
  t <> 0 ->
  session_head src (headers src) = Return head_response ->
  last_modified head_response = Some lm ->
  lm <> EmptyString ->
  last_modified_to_epoch lm = Return t' ->
  t' <= t ->
  download fs download_directory src previous_update
  = (Return None, makedirs (rmtree fs download_directory) download_directory).
Proof.
  intros Hprev Ht Hhead Hlm Hne Hparse Hle.
  unfold url_download, url_download_try.
  assert ((match previous_update with
           | NoUpdate => Return None
           | IsoString s => t0 ← iso_to_epoch s; Return (Some t0)
           | Epoch t0 => Return (Some t0)
           end) = Return (Some t)) as ->.
  { destruct Hprev as [->|(s & -> & ->)]; reflexivity. }
  bind_step. rewrite Hhead. bind_step. rewrite Hlm.
  destruct lm as [|c lm]; [congruence|]. rewrite Hparse. bind_step.
  destruct (t =? 0) eqn:E0; [lia|]. cbn [negb andb default from_option]. unfold id.
  destruct (t' <=? t) eqn:E1; [reflexivity|lia].
Qed.

(** X9: on a first run ([previous_update] absent), once the [HEAD] request
    is answered, the answer to the [GET] request decides: status 304 gives
    no file; another status that is [ok] writes the body to the file named
    after the source, with the extension [.yar], in the download directory
    and returns its path; every other status gives no file and no
    exception. *)
Theorem url_download_by_status (fs : gmap string node) (download_directory : string)
    (src : source) (head_response get_response : response) :
  session_head src (headers src) = Return head_response ->
  (forall lm, last_modified head_response = Some lm -> lm <> EmptyString ->
              exists t', last_modified_to_epoch lm = Return t') ->
  session_get src (headers src) = Return get_response ->
  let fs0 := makedirs (rmtree fs download_directory) download_directory in
  let file_path := join download_directory (basename (name src +:+ ".yar")) in
  download fs download_directory src NoUpdate
  = if status_code get_response =? 304 then (Return None, fs0)
    else if ok get_response
         then (Return (Some file_path), <[file_path := File (content get_response)]> fs0)
         else (Return None, fs0).
Proof.
  intros Hhead Hlm Hget fs0 file_path.
  unfold url_download, url_download_try. fold fs0. bind_step. rewrite Hhead. bind_step.
  assert ((match last_modified head_response with
           | Some EmptyString | None => Return false
           | Some (String a s as lm) => t ← last_modified_to_epoch lm; Return (false && (t <=? 0))
           end) = Return false) as Hun.
  { destruct (last_modified head_response) as [[|c lm]|] eqn:E; try reflexivity.
    destruct (Hlm _ eq_refl ltac:(discriminate)) as [t' ->]. reflexivity. }
  cbn [default negb]. rewrite Hun. bind_step. rewrite Hget. bind_step.
  destruct (status_code get_response =? 304); [reflexivity|].
  destruct (ok get_response); reflexivity.
Qed.


End DownloadMore.

Lemma url_download_skips_unmodified_witness :
  url_download (Remote.answers Remote.answer) Scenario.refuse Scenario.no_date
    Remote.date_of_answer Scenario.no_http_date ∅ "/tmp/yara_updates"
    Scenario.http_source (Epoch 1500000000)
  = (Return None, makedirs (rmtree ∅ "/tmp/yara_updates") "/tmp/yara_updates").
Proof.
  apply (url_download_skips_unmodified (Remote.answers Remote.answer) Scenario.refuse
           Scenario.no_date Remote.date_of_answer Scenario.no_http_date ∅
           "/tmp/yara_updates" Scenario.http_source (Epoch 1500000000)
           1500000000 1445412480 Remote.answer "Wed, 21 Oct 2015 07:28:00 GMT").
  - left. reflexivity.
  - lia.
  - reflexivity.
  - reflexivity.
  - discriminate.
  - reflexivity.
  - lia.
Defined.

Lemma url_download_by_status_witness :
  url_download (Remote.answers Remote.answer) (Remote.answers Remote.not_found)
    Scenario.no_date Remote.date_of_answer Scenario.no_http_date ∅ "/tmp/yara_updates"
    Scenario.http_source NoUpdate
  = (Return None, makedirs (rmtree ∅ "/tmp/yara_updates") "/tmp/yara_updates").
Proof.
  apply (url_download_by_status (Remote.answers Remote.answer)
           (Remote.answers Remote.not_found) Scenario.no_date Remote.date_of_answer
           Scenario.no_http_date ∅ "/tmp/yara_updates" Scenario.http_source
           Remote.answer Remote.not_found).
  - reflexivity.
  - intros lm _ _. exists 1445412480. reflexivity.
  - reflexivity.
Defined.



Section DownloadDirectory.

Variable session_head : source -> option (list (string * string)) -> outcome response.
Variable session_get : source -> option (list (string * string)) -> outcome response.
Variable iso_to_epoch : string -> outcome Z.
Variable last_modified_to_epoch : string -> outcome Z.
Variable epoch_to_http_date : Z -> string.


End DownloadDirectory.


(** ** The loops of [yara_update] *)

Section UpdateMore.

Variable session_head : source -> option (list (string * string)) -> outcome response.
Variable session_get : source -> option (list (string * string)) -> outcome response.
Variable iso_to_epoch : string -> outcome Z.
Variable last_modified_to_epoch : string -> outcome Z.
Variable epoch_to_http_date : Z -> string.
Variable git_clone_repo :
  gmap string node -> string -> source -> timestamp ->
  outcome (list string) * gmap string node.
Variable parse_string : string -> outcome (list signature).
Variable detect_imports : signature -> list string.
Variable rebuild_yara_rule : signature -> string.
Variable get_sha256 : string -> string.
Variable UNRESTRICTED : string.
Variable paranoid_check : list string -> string * string.
Variable import_file : string -> string -> string -> option exn.

Local Abbreviation download :=
  (url_download session_head session_get iso_to_epoch last_modified_to_epoch
     epoch_to_http_date).
Local Abbreviation all_sources :=
  (update_sources session_head session_get iso_to_epoch last_modified_to_epoch
     epoch_to_http_date git_clone_repo parse_string detect_imports rebuild_yara_rule
     get_sha256 UNRESTRICTED).
Local Abbreviation import_loop := (validate_and_import UNRESTRICTED paranoid_check import_file).

(** When [url_download] returns without a file, the loop over the sources
    does not go on to the next source: the [None] in [files] reaches
    [os.path.dirname] and the loop raises [TypeError]. *)
Lemma update_sources_raises_without_file (fs : gmap string node)
    (download_directory working_dir : string) (previous_update : timestamp)
    (previous_hash : gmap string string) (source_name : string) (src : source)
    (sources : list (string * source))
    (files_sha256 files_default_classification : list (string * string)) :
  startswith (String.rev (uri src)) (String.rev ".git") = false ->
  (download (makedirs fs (join working_dir source_name)) download_directory src
     previous_update).1 = Return None ->
  all_sources fs download_directory working_dir previous_update previous_hash
    ((source_name, src) :: sources) files_sha256 files_default_classification
  = Raise TypeError.
Proof.
  intros Huri Hnone. cbn [update_sources]. unfold update_source, download_files.
  rewrite Huri.
  destruct (download _ download_directory src previous_update) as [r fs1].
  cbn [fst] in Hnone. subst r. reflexivity.
Qed.

Lemma sources_dict_head (src : source) :
  forall (rest : list source) (d : list (string * source)),
    (forall s, s ∈ rest -> name s <> name src) ->
    exists d', foldl (fun d s => dict_set d (name s) s) ((name src, src) :: d) rest
               = (name src, src) :: d'.
Proof.
  induction rest as [|s rest IH]; intros d Hrest.
  - exists d. reflexivity.
  - cbn [foldl dict_set].
    destruct (String.eqb_spec (name src) (name s)) as [Heq|_].
    + exfalso. apply (Hrest s); [left|now symmetry].
    + apply IH. intros s' Hs'. apply Hrest. now right.
Qed.

(** X11: when [url_download] returns without a file for the first source
    of the configuration (the file was not modified, the request timed
    out, the status was not OK), [yara_update] does not go on to the next
    source and does not end with "no new files": it raises [TypeError],
    before anything is validated or imported. *)
Theorem yara_update_raises_without_file (fuel : nat) (fs : gmap string node)
    (download_directory working_dir : string) (src : source) (rest : list source)
    (previous_update : timestamp) (previous_hash : gmap string string) :
  (forall s, s ∈ rest -> name s <> name src) ->
  startswith (String.rev (uri src)) (String.rev ".git") = false ->
  (download
     (makedirs (makedirs (rmtree fs working_dir) working_dir)
        (join working_dir (name src)))
     download_directory src previous_update).1 = Return None ->
  yara_update session_head session_get iso_to_epoch last_modified_to_epoch
    epoch_to_http_date git_clone_repo parse_string detect_imports rebuild_yara_rule
    get_sha256 UNRESTRICTED paranoid_check import_file
    fuel fs download_directory working_dir (src :: rest) previous_update previous_hash
  = (Raise TypeError, ([], [])).
Proof.
  intros Hrest Huri Hnone. unfold yara_update, sources_dict.
  cbn [foldl dict_set].
  destruct (sources_dict_head src rest [] Hrest) as [d' ->].
  rewrite update_sources_raises_without_file by assumption.
  reflexivity.
Qed.



End UpdateMore.

Lemma yara_update_raises_without_file_witness :
  yara_update Scenario.time_out Scenario.time_out Scenario.no_date Scenario.no_date
    Scenario.no_http_date (fun fs _ _ _ => (Return [], fs))
    (fun _ => Return [Scenario.src_signature]) (fun _ => []) raw
    (fun _ => "deadbeef") "UNRESTRICTED"
    (fun _ => (print_val, EmptyString)) (fun _ _ _ => None)
    5 ∅ "/tmp/yara_updates" "/tmp/updater_working_dir" [Scenario.http_source] NoUpdate ∅
  = (Raise TypeError, ([], [])).
Proof.
  apply (yara_update_raises_without_file Scenario.time_out Scenario.time_out
           Scenario.no_date Scenario.no_date Scenario.no_http_date
           (fun fs _ _ _ => (Return [], fs))
           (fun _ => Return [Scenario.src_signature]) (fun _ => []) raw
           (fun _ => "deadbeef") "UNRESTRICTED"
           (fun _ => (print_val, EmptyString)) (fun _ _ _ => None)
           5 ∅ "/tmp/yara_updates" "/tmp/updater_working_dir" Scenario.http_source []
           NoUpdate ∅).
  - intros s Hs. now apply elem_of_nil in Hs.
  - reflexivity.
  - vm_compute. reflexivity.
Defined.


(** ** Reading and writing a rule file *)






(** ** The dictionary of the sources *)

Lemma dict_set_keys {V} (d : list (string * V)) (k : string) (v : V) :
  map fst (dict_set d k v)
  = if bool_decide (k ∈ map fst d) then map fst d else map fst d ++ [k].
Proof.
  induction d as [|[k' v'] d IH].
  - reflexivity.
  - cbn [dict_set map fst]. destruct (String.eqb_spec k' k) as [->|Hne].
    + rewrite bool_decide_eq_true_2 by left. reflexivity.
    + cbn [map fst]. rewrite IH. case_bool_decide as Hin.
      * rewrite bool_decide_eq_true_2 by now right. reflexivity.
      * rewrite bool_decide_eq_false_2; [reflexivity|].
        intros [Heq|Hin']%elem_of_cons; [now apply Hne|now apply Hin].
Qed.

Lemma dict_get_set {V} (d : list (string * V)) (k k' : string) (v : V) :
  dict_get (dict_set d k v) k' = if String.eqb k k' then Some v else dict_get d k'.
Proof.
  induction d as [|[k0 v0] d IH].
  - reflexivity.
  - cbn [dict_set]. destruct (String.eqb_spec k0 k) as [->|Hne].
    + cbn [dict_get]. now destruct (String.eqb k k').
    + cbn [dict_get]. rewrite IH.
      destruct (String.eqb_spec k0 k') as [->|_]; [|reflexivity].
      destruct (String.eqb_spec k k') as [->|_]; [now contradict Hne|reflexivity].
Qed.

Lemma sources_dict_snoc (sources : list source) (src : source) :
  sources_dict (sources ++ [src]) = dict_set (sources_dict sources) (name src) src.
Proof. unfold sources_dict. now rewrite foldl_app. Qed.

(** X14: the dictionary of the sources has one entry for each name of the
    configuration; two sources with the same name count as one: the entry
    holds the source that comes last in the configuration, and keeps the
    place of the first one in the order in which the sources are
    updated. *)
Theorem sources_dict_last_source_wins (sources : list source) :
  NoDup (map fst (sources_dict sources))
  /\ map fst (sources_dict sources) = reverse (remove_dups (reverse (map name sources)))
  /\ forall n, dict_get (sources_dict sources) n
               = List.find (fun src => String.eqb (name src) n) (reverse sources).
Proof.
  assert (map fst (sources_dict sources)
          = reverse (remove_dups (reverse (map name sources)))) as Hkeys.
  { induction sources as [|src sources IH] using rev_ind; [reflexivity|].
    rewrite sources_dict_snoc, dict_set_keys, IH, map_app, reverse_app.
    change (reverse (map name [src])) with [name src].
    cbn [app remove_dups].
    destruct (decide_rel elem_of (name src) (reverse (map name sources))) as [Hin|Hin].
    - rewrite bool_decide_eq_true_2; [reflexivity|].
      rewrite elem_of_reverse, elem_of_remove_dups. exact Hin.
    - rewrite bool_decide_eq_false_2; [now rewrite reverse_cons|].
      rewrite elem_of_reverse, elem_of_remove_dups. exact Hin. }
  split; [|split; [exact Hkeys|]].
  - rewrite Hkeys, reverse_Permutation. apply NoDup_remove_dups.
  - clear Hkeys. intros n.
    induction sources as [|src sources IH] using rev_ind; [reflexivity|].
    rewrite sources_dict_snoc, dict_get_set, reverse_app.
    change (reverse [src]) with [src]. cbn [app List.find].
    destruct (String.eqb (name src) n); [reflexivity|exact IH].
Qed.

(** ** What [clean] can raise *)

Lemma norm_index_range {A} (l : list A) (i : Z) (k : nat) :
  norm_index l i = Some k -> - Z.of_nat (length l) <= i < Z.of_nat (length l).
Proof.
  unfold norm_index.
  destruct (0 <=? i) eqn:E1; destruct (i <? Z.of_nat (length l)) eqn:E2;
    destruct (- Z.of_nat (length l) <=? i) eqn:E3; destruct (i <? 0) eqn:E4;
    simpl; intros [= <-]; lia.
Qed.

Lemma getitem_in_range {A} (l : list A) (i : Z) :
  - Z.of_nat (length l) <= i < Z.of_nat (length l) -> exists x, getitem l i = Return x.
Proof.
  intros Hi. destruct (getitem_cases l i) as [(k & x & _ & _ & Hx)|[Hn _]].
  - now exists x.
  - exfalso. unfold norm_index in Hn.
    destruct (0 <=? i) eqn:E1; destruct (i <? Z.of_nat (length l)) eqn:E2;
      destruct (- Z.of_nat (length l) <=? i) eqn:E3; destruct (i <? 0) eqn:E4;
      simpl in Hn; try discriminate; lia.
Qed.

(** The forward scan starts inside the file and stops on the last line at
    the latest: it always returns. *)
Lemma second_loop_returns (f_lines : list string) (message : string)
    (eline error_line find_start : Z) :
  forall (fuel : nat) (end_idx : Z),
    - Z.of_nat (length f_lines) <= error_line + end_idx < Z.of_nat (length f_lines) ->
    Z.of_nat (length f_lines) - (error_line + end_idx) <= Z.of_nat fuel ->
    exists f_lines',
      second_loop fuel f_lines message eline error_line find_start end_idx
      = Return f_lines'.
Proof.
  induction fuel as [|fuel IH]; intros end_idx Hin Hfuel; [lia|].
  cbn [second_loop].
  destruct (Z.of_nat (length f_lines) <=? error_line + end_idx) eqn:E; [lia|].
  destruct (getitem_in_range f_lines (error_line + end_idx) Hin) as [line ->]. bind_step.
  destruct (error_line + end_idx =? Z.of_nat (length f_lines) - 1) eqn:Elast.
  - rewrite orb_true_r. eauto.
  - rewrite orb_false_r. destruct (rulestart_match line); [eauto|].
    replace (error_line + end_idx + 1) with (error_line + (end_idx + 1)) in * by lia.
    apply IH; lia.
Qed.

Lemma first_loop_outcome (f_lines : list string) (message : string) (eline error_line : Z) :
  forall (fuel : nat) (start_idx : Z),
    (0 < start_idx ->
     - Z.of_nat (length f_lines) <= error_line < Z.of_nat (length f_lines)) ->
    0 <= start_idx ->
    (0 <= error_line - start_idx < Z.of_nat (length f_lines) ->
     error_line - start_idx + 2 <= Z.of_nat fuel) ->
    (- Z.of_nat (length f_lines) <= error_line - start_idx < -1 ->
     error_line - start_idx + Z.of_nat (length f_lines) + 2 <= Z.of_nat fuel) ->
    (1 <= fuel)%nat ->
    clean_outcome message eline (first_loop fuel f_lines message eline error_line start_idx).
Proof.
  induction fuel as [|fuel IH]; intros start_idx Hline Hidx Hup Hdown Hfuel; [lia|].
  cbn [first_loop].
  destruct (error_line - start_idx =? -1) eqn:E; [right; right; right; reflexivity|].
  destruct (getitem_cases f_lines (error_line - start_idx))
    as [(k & line & Hk & _ & ->)|[_ ->]]; [|right; left; reflexivity].
  bind_step. apply norm_index_range in Hk.
  assert (- Z.of_nat (length f_lines) <= error_line < Z.of_nat (length f_lines)) as Hin.
  { destruct (Z.eq_dec start_idx 0) as [->|]; [|apply Hline]; lia. }
  destruct (rulestart_match line).
  - unfold rulename_of. destruct (rulename_search line) as [g|];
      [|right; right; left; reflexivity].
    bind_step.
    destruct (second_loop_returns f_lines message eline error_line
                (error_line - start_idx) (2 * length f_lines + 1) 0) as [f_lines' ->];
      [lia|lia|].
    left. eauto.
  - replace (error_line - start_idx - 1) with (error_line - (start_idx + 1)) in * by lia.
    apply IH; lia.
Qed.

Lemma clean_lines_outcome (f_lines : list string) (eline : Z)
    (message invalid_rule_name : string) :
  clean_outcome message eline (clean_lines f_lines eline message invalid_rule_name).
Proof.
  unfold clean_lines. destruct (negb (String.eqb invalid_rule_name EmptyString)).
  - destruct (getitem_cases f_lines (eline - 1)) as [(k & line & Hk & _ & ->)|[_ ->]].
    + bind_step. rewrite Hk. left. eauto.
    + right. left. reflexivity.
  - apply first_loop_outcome; lia.
Qed.

(** X15: [clean] always ends, and in one of four ways: it returns the name
    of the rule, or it raises [IndexError] (a line number outside the file),
    [AttributeError] (a rule start on which the name pattern finds no name)
    or the exception "failed to find invalid rule start".  The exception
    "failed to find invalid rule end" is never raised: the forward scan
    begins inside the file and stops on the last line at the latest. *)
Theorem clean_never_misses_rule_end (rulefile : list string) (eline : Z)
    (message invalid_rule_name : string) :
  clean_outcome message eline (clean rulefile eline message invalid_rule_name).1
  /\ (forall message' eline',
        (clean rulefile eline message invalid_rule_name).1
        <> Raise (end_not_found message' eline')).
Proof.
  assert (clean_outcome message eline (clean rulefile eline message invalid_rule_name).1)
    as Hout.
  { unfold clean.
    destruct (clean_lines_outcome rulefile eline message invalid_rule_name)
      as [[[f_lines name] ->] | [-> | [-> | ->]]]; cbn [fst].
    - left. eauto.
    - right. left. reflexivity.
    - right. right. left. reflexivity.
    - right. right. right. reflexivity. }
  split; [exact Hout|]. intros message' eline'.
  destruct Hout as [[a ->] | [-> | [-> | ->]]]; discriminate.
Qed.

(** ** A line number beyond the end of the file *)

(** X16: when the check reports a syntax error at a line number beyond the
    last line of the rule file, [validate_rules] repairs nothing: [clean]
    raises [IndexError] at its first subscript, with or without a
    duplicated identifier, the file is left as it was and the exception
    leaves [validate_rules]. *)
Theorem validate_rules_line_beyond_file
    (paranoid_check : list string -> string * string) (fuel : nat)
    (rulefile : list string) (e : exn) (e_line : Z) (e_message invalid_rule_name : string) :
  paranoid_rule_check paranoid_check rulefile = Some e ->
  startswith (str_of_exn e) "yara.SyntaxError" = true ->
  parse_error (str_of_exn e) = Return (e_line, e_message, invalid_rule_name) ->
  Z.of_nat (length rulefile) < e_line ->
  clean rulefile e_line e_message invalid_rule_name = (Raise IndexError, rulefile)
  /\ validate_rules paranoid_check (S fuel) rulefile = (Raise IndexError, rulefile).
Proof.
  intros Hchk Hsyn Hparse Hline.
  assert (clean rulefile e_line e_message invalid_rule_name = (Raise IndexError, rulefile))
    as Hclean.
  { unfold clean, clean_lines.
    destruct (negb (String.eqb invalid_rule_name EmptyString)).
    - rewrite getitem_above by lia. reflexivity.
    - replace (length rulefile + 2)%nat with (S (length rulefile + 1)) by lia.
      cbn [first_loop].
      destruct (e_line - 1 - 0 =? -1) eqn:E; [lia|].
      rewrite (getitem_above rulefile (e_line - 1 - 0)) by lia. reflexivity. }
  split; [exact Hclean|].
  unfold validate_rules. cbn [validate_rules_loop].
  rewrite Hchk, Hsyn, Hparse, Hclean. reflexivity.
Qed.

Lemma validate_rules_line_beyond_file_witness :
  clean ["rule A {" +:+ NL; " condition: true }" +:+ NL] 7 Scenario.syntax_message
    EmptyString
  = (Raise IndexError, ["rule A {" +:+ NL; " condition: true }" +:+ NL])
  /\ validate_rules check_line_seven 3 ["rule A {" +:+ NL; " condition: true }" +:+ NL]
     = (Raise IndexError, ["rule A {" +:+ NL; " condition: true }" +:+ NL]).
Proof.
  apply (validate_rules_line_beyond_file check_line_seven 2
           ["rule A {" +:+ NL; " condition: true }" +:+ NL]
           (Exception ("yara.SyntaxError: /tmp/included.yar(7): "
                       +:+ Scenario.syntax_message))
           7 Scenario.syntax_message EmptyString).
  - reflexivity.
  - reflexivity.
  - vm_compute. reflexivity.
  - cbn [length]. lia.
Defined.

(** ** The aggregation of the files of a source *)

Section Aggregate.

Variable parse_string : string -> outcome (list signature).
Variable detect_imports : signature -> list string.
Variable rebuild_yara_rule : signature -> string.

Local Abbreviation one_file := (aggregate_file parse_string detect_imports rebuild_yara_rule).
Local Abbreviation all_files := (aggregate_files parse_string detect_imports rebuild_yara_rule).

(** One file: only the aggregated file is written; it exists once the
    mode has left ["w"]. *)
Lemma aggregate_file_writes_one_file (fs fs' : gmap string node) (file_name : string)
    (file : option string) (mode_w mode_w' : bool) (st st' : include_state) :
  one_file fs file_name file mode_w st = Return (fs', mode_w', st') ->
  (forall p, p <> file_name -> fs' !! p = fs !! p)
  /\ ((mode_w = false -> exists text, fs !! file_name = Some (File text)) ->
      mode_w' = false -> exists text, fs' !! file_name = Some (File text))
  /\ (forall f, file = Some f -> f ∉ st.1 -> mode_w' = false).
Proof.
  unfold aggregate_file. destruct file as [file|]; [|discriminate].
  case_bool_decide as Hseen.
  { intros [= <- <- <-]. split; [reflexivity|]. split; [tauto|].
    intros f [= <-] Hf. contradiction. }
  destruct (open_readlines fs file) as [f_lines| |]; [|discriminate..]. bind_step.
  destruct (include_loop _ f_lines [] _) as [[temp_lines st1]| |]; [|discriminate..].
  bind_step.
  destruct (parse_string _) as [signatures| |]; [|discriminate..]. bind_step.
  destruct (fs !! file_name) as [[old|]|] eqn:Hold; [| discriminate |];
    intros [= <- <- <-].
  - split; [intros p Hp; now rewrite lookup_insert_ne|].
    split; [|reflexivity]. intros _ _. rewrite lookup_insert_eq. eauto.
  - split; [intros p Hp; now rewrite lookup_insert_ne|].
    split; [|reflexivity]. intros _ _. rewrite lookup_insert_eq. eauto.
Qed.

Lemma aggregate_files_write_one_file (file_name : string) :
  forall (files : list (option string)) (fs fs' : gmap string node) (mode_w : bool)
         (st : include_state),
    all_files fs file_name files mode_w st = Return fs' ->
    (forall p, p <> file_name -> fs' !! p = fs !! p)
    /\ ((mode_w = false -> exists text, fs !! file_name = Some (File text)) ->
        (mode_w = false \/ exists f rest, files = Some f :: rest /\ f ∉ st.1) ->
        exists text, fs' !! file_name = Some (File text)).
Proof.
  induction files as [|file files IH]; intros fs fs' mode_w st.
  - cbn [aggregate_files]. intros [= <-]. split; [reflexivity|].
    intros Hinv [->|(f & rest & [=] & _)]. now apply Hinv.
  - cbn [aggregate_files].
    destruct (one_file fs file_name file mode_w st) as [[[fs1 mode1] st1]| |] eqn:Hone;
      [|discriminate..].
    bind_step. intros Hrest.
    destruct (aggregate_file_writes_one_file _ _ _ _ _ _ _ _ Hone)
      as (Hframe1 & Hinv1 & Hmode1).
    destruct (IH _ _ _ _ Hrest) as (Hframe & Hinv).
    split.
    + intros p Hp. now rewrite Hframe, Hframe1.
    + intros Hstart Hwhy. apply Hinv.
      * intros Hm. now apply Hinv1.
      * left. destruct Hwhy as [->|(f & rest & [= -> ->] & Hf)].
        -- unfold aggregate_file in Hone. destruct file as [file|]; [|discriminate].
           case_bool_decide.
           ++ now injection Hone as _ <- _.
           ++ now apply (Hmode1 file).
        -- now apply (Hmode1 f).
Qed.

(** X17: the aggregation of the files of a source writes one file only,
    the aggregated file of the source: every other path, the downloaded
    files among them, is left as it was.  When the source has at least
    one file, the aggregated file exists afterwards, with or without a
    rule in it; when it has none, nothing is written at all. *)
Theorem aggregate_files_writes_aggregated_file_only (fs fs' : gmap string node)
    (file_name : string) (files : list (option string)) :
  all_files fs file_name files true (∅, []) = Return fs' ->
  (forall p, p <> file_name -> fs' !! p = fs !! p)
  /\ (files <> [] -> exists text, fs' !! file_name = Some (File text))
  /\ (files = [] -> fs' = fs).
Proof.
  intros Hrun.
  destruct (aggregate_files_write_one_file _ _ _ _ _ _ Hrun) as (Hframe & Hinv).
  split; [exact Hframe|]. split.
  - intros Hne. apply Hinv; [discriminate|]. right.
    destruct files as [|[f|] rest]; [contradiction| |].
    + exists f, rest. split; [reflexivity|]. cbn [fst]. set_solver.
    + discriminate.
  - intros ->. now injection Hrun as <-.
Qed.

End Aggregate.

Lemma aggregate_files_writes_aggregated_file_only_witness :
  (forall p, p <> "/tmp/updater_working_dir/src.yar" ->
             aggregated_fs !! p = downloaded_fs !! p)
  /\ ([Some "/tmp/yara_updates/src.yar"] <> [] ->
      exists text, aggregated_fs !! "/tmp/updater_working_dir/src.yar" = Some (File text))
  /\ ([Some "/tmp/yara_updates/src.yar"] = [] -> aggregated_fs = downloaded_fs).
Proof.
  apply (aggregate_files_writes_aggregated_file_only
           (fun _ => Return [Scenario.src_signature]) (fun _ => []) raw
           downloaded_fs aggregated_fs "/tmp/updater_working_dir/src.yar"
           [Some "/tmp/yara_updates/src.yar"]).
  vm_compute. reflexivity.
Defined.
